(** * selectstar: the template processor of [src/index.ts], embedded in Rocq

    The development follows the source file top to bottom: JavaScript values
    and boxes, [escapeIdentifier], the box constructors of the public API,
    [isLiteral], [process] with its inner [processParam], [format], [sql] and
    [template].  Theorems come after all definitions.

    Conventions of the embedding.
    - A JavaScript string is a [string]; a character stands for one code unit
      in the range 0..255, so the white space of [\s] and [trimStart] is the
      set 9, 10, 11, 12, 13, 32, 160.
    - A JavaScript number is a binary64 [float].  The index cursor of
      [process] only ever holds 1 plus a sum of array lengths, so it is a
      [nat], printed in decimal as string concatenation prints such a number.
    - A thrown exception is the [Err] case of [Result]; mutation of the
      closure variables [text], [values] and [index] is explicit passing of a
      [State]. *)

From Stdlib Require Import String Ascii List FinFun Arith Lia Bool.
From Stdlib Require Import PrimFloat Strings.Byte.
From Stdlib Require Import Decimal DecimalString DecimalNat.
Import ListNotations.

Local Open Scope string_scope.
Local Open Scope list_scope.
Local Open Scope nat_scope.

(* ------------------------------------------------------------------ *)
(** ** Characters and the string primitives the source calls *)

Module JS.

(** The double quote, the line feed and the dollar sign. *)
Definition dquote : ascii := "034"%char.
Definition LF : ascii := "010"%char.
Definition dollar : ascii := "$"%char.

Definition str (c : ascii) : string := String c EmptyString.

(** [\s] of a regular expression, and the characters [trimStart] strips. *)
Definition isWhiteSpace (c : ascii) : bool :=
  let n := nat_of_ascii c in
  ((9 <=? n) && (n <=? 13)) || (n =? 32) || (n =? 160).

(** [str.replace(/c/g, replacement)] for a one-character pattern: every
    occurrence is replaced, left to right. *)
Fixpoint replaceAll (c : ascii) (replacement : string) (s : string) : string :=
  match s with
  | EmptyString => EmptyString
  | String a rest =>
      if Ascii.eqb a c
      then (replacement ++ replaceAll c replacement rest)%string
      else String a (replaceAll c replacement rest)
  end.

(** [s.split(sep)] for a one-character separator; the result is never
    empty: the empty string splits into one empty piece. *)
Fixpoint split (sep : ascii) (s : string) : list string :=
  match s with
  | EmptyString => [EmptyString]
  | String a rest =>
      if Ascii.eqb a sep then EmptyString :: split sep rest
      else match split sep rest with
           | [] => [str a]
           | piece :: pieces => String a piece :: pieces
           end
  end.

(** [pieces.join(sep)] is [String.concat sep pieces]. *)
Definition join (sep : string) (pieces : list string) : string :=
  String.concat sep pieces.

(** [p.match(/^\s*$/)] is not null: every character of [p] is white space. *)
Fixpoint matchesBlank (p : string) : bool :=
  match p with
  | EmptyString => true
  | String a rest => isWhiteSpace a && matchesBlank rest
  end.

Fixpoint trimStart (p : string) : string :=
  match p with
  | EmptyString => EmptyString
  | String a rest => if isWhiteSpace a then trimStart rest else p
  end.

(** Numbers that [Math.min] can return here: a length, or [Infinity] when
    it is called with no argument. *)
Inductive Num := Finite (n : nat) | Infinity.

Fixpoint Math_min (args : list nat) : Num :=
  match args with
  | [] => Infinity
  | n :: rest =>
      match Math_min rest with
      | Infinity => Finite n
      | Finite m => Finite (Nat.min n m)
      end
  end.

Fixpoint drop (n : nat) (s : string) : string :=
  match n, s with
  | O, _ => s
  | S _, EmptyString => EmptyString
  | S n', String _ rest => drop n' rest
  end.

(** [p.slice(start)] for a start that is not negative. *)
Definition slice (start : Num) (p : string) : string :=
  match start with
  | Finite n => drop n p
  | Infinity => EmptyString
  end.

(** String concatenation with a number that holds a natural: its decimal
    digits. *)
Definition decimal (n : nat) : string :=
  NilEmpty.string_of_uint (Nat.to_uint n).

End JS.

(* ------------------------------------------------------------------ *)
(** ** Values *)

(** What calling a JavaScript function does: it returns a value or throws.
    Callables are taken to be deterministic. *)
Inductive Completion (A : Type) : Type :=
| Returned (result : A)
| Thrown (message : string).
Arguments Returned {A} result.
Arguments Thrown {A} message.

(** The processor hands one function to every callable parameter, [subsql];
    a callable is modelled by what it does with that argument. *)
Inductive Entrypoint : Type := SubsqlEntrypoint.

(** The values a caller can pass as a parameter, by the cases the source
    tells apart with [typeof], [instanceof], [ArrayBuffer.isView] and the
    private box symbol.  Boxes are only made by [box], which the module calls
    with four payload types.  Symbols and bigints, which are no Literal
    either, are left out. *)
#[warnings="-register-all"]
Inductive Value : Type :=
| VString (s : string)
| VNumber (x : float)
| VBoolean (b : bool)
| VNull
| VUndefined
| VDate (time : float)
| VBuffer (bytes : list byte)
| VArrayBufferView (bytes : list byte)
| VObject (props : list (string * Value))
| VArray (elements : list Value)
| VFunction (call : Entrypoint -> Completion Value)
| VBox (payload : Boxed)
with Boxed : Type :=
| BIdentifier (value : string)
| BList (items : list Value) (separator : string)
| BUnsafe (value : Value)
| BSubsql (fragments : list string) (params : list Value).

Inductive Error : Type :=
| MalformedInvocation               (* TypeError: Unexpected value ... at arg 0 *)
| UnboxingError                     (* TypeError: Unexpected non-box value *)
| UnsupportedValueType (param : Value)          (* RangeError: Value ... is not a valid pg literal *)
| ParameterCountMismatch (extra : list Value)   (* RangeError: Unexpected additional params: ... *)
| CallableThrew (message : string). (* whatever a callable parameter threw *)

Inductive Result (A : Type) : Type :=
| Ok (a : A)
| Err (e : Error).
Arguments Ok {A} a.
Arguments Err {A} e.

Definition bind {A B : Type} (r : Result A) (k : A -> Result B) : Result B :=
  match r with
  | Ok a => k a
  | Err e => Err e
  end.

Notation "x <- r ;; k" := (bind r (fun x => k))
  (at level 61, r at next level, right associativity).

Record SqlQueryObject : Type := { text : string; values : list Value }.

(* ------------------------------------------------------------------ *)
(** ** Escaping and boxes *)

Definition escapeIdentifier (s : string) : string :=
  (JS.str JS.dquote ++ JS.replaceAll JS.dquote (String JS.dquote (JS.str JS.dquote)) s
     ++ JS.str JS.dquote)%string.

Definition box (payload : Boxed) : Value := VBox payload.


Definition unwrap (value : Value) : Result Boxed :=
  match value with
  | VBox payload => Ok payload
  | _ => Err UnboxingError
  end.

Definition isIdentifier (value : Value) : bool :=
  match value with
  | VBox (BIdentifier _) => true
  | _ => false
  end.

Definition isList (value : Value) : bool :=
  match value with
  | VBox (BList _ _) => true
  | _ => false
  end.

Definition isUnsafe (value : Value) : bool :=
  match value with
  | VBox (BUnsafe _) => true
  | _ => false
  end.

Definition isSubsql (value : Value) : bool :=
  match value with
  | VBox (BSubsql _ _) => true
  | _ => false
  end.

Definition subsql (fragments : list string) (params : list Value) : Value :=
  box (BSubsql fragments params).

(** Applying the function a callable received. *)
Definition invoke (fn : Entrypoint) (fragments : list string) (params : list Value)
  : Value :=
  match fn with
  | SubsqlEntrypoint => subsql fragments params
  end.

(** [typeof value === "function"]. *)
Definition isFunction (value : Value) : bool :=
  match value with
  | VFunction _ => true
  | _ => false
  end.

Definition isLiteral (value : Value) : bool :=
  match value with
  | VString _ => true          (* type === "string" *)
  | VNumber _ => true          (* type === "number" *)
  | VBoolean _ => true         (* type === "boolean" *)
  | VNull => true              (* value === null *)
  | VUndefined => true         (* value === undefined *)
  | VDate _ => true            (* value instanceof Date *)
  | VBuffer _ => true          (* value instanceof Buffer *)
  | VArrayBufferView _ => true (* ArrayBuffer.isView(value) *)
  | VObject _ | VArray _ | VFunction _ | VBox _ => false
  end.

(** The public constructors.  A parameter with a default is an [option]:
    [None] is the argument left out. *)
Module Api.

Definition identifier (value : string) : Value := box (BIdentifier value).

Definition unsafe (value : Value) : Value := box (BUnsafe value).

Definition list (items : Datatypes.list Value) (separator : option string) : Value :=
  box (BList items (match separator with
                    | Some s => s
                    | None => ", "
                    end)).

Definition items := list.

Definition identifiers (values : Datatypes.list string) (separator : option string)
  : Value :=
  list (map identifier values) separator.

End Api.

(* ------------------------------------------------------------------ *)
(** ** The formatter *)

Definition nonBlank (p : string) : bool := negb (JS.matchesBlank p).

(** [p.length - p.trimStart().length] *)
Definition leadingWidth (p : string) : nat :=
  String.length p - String.length (JS.trimStart p).

Definition format (sql : string) : string :=
  let pieces := filter nonBlank (JS.split JS.LF sql) in
  let leadingSpace := JS.Math_min (map leadingWidth pieces) in
  JS.join (JS.str JS.LF) (map (JS.slice leadingSpace) pieces).

(* ------------------------------------------------------------------ *)
(** ** The processor *)

(** The closure variables of one [process] call. *)
Record State : Type :=
  { cur_text : string; cur_values : list Value; cur_index : nat }.

(** [text += s] *)
Definition appendText (s : string) (st : State) : State :=
  {| cur_text := cur_text st ++ s;
     cur_values := cur_values st;
     cur_index := cur_index st |}.

(** The Literal branch of [processParam]:
    [text += "$" + index; values.push(param); index += 1]. *)
Definition bindLiteral (param : Value) (st : State) : State :=
  {| cur_text := cur_text st ++ String JS.dollar (JS.decimal (cur_index st));
     cur_values := cur_values st ++ [param];
     cur_index := cur_index st + 1 |}.

(** What [processParam] does with the result of a nested [process]:
    [text += processed.text; values.push(...processed.values);
     index += processed.values.length]. *)
Definition splice (processed : SqlQueryObject) (st : State) : State :=
  {| cur_text := cur_text st ++ text processed;
     cur_values := cur_values st ++ values processed;
     cur_index := cur_index st + length (values processed) |}.

(** The first argument of [sql] and [template] at run time: an array of
    strings, or something for which [Array.isArray] is false. *)
Inductive FragmentsArg : Type :=
| TemplateStrings (strings : list string)
| NotAnArray (value : Value).

Section Processor.

(** String coercion of a value that is not a string is the runtime's
    (number and date formatting, the source text of a function); the
    processor is parametric in it.  A string coerces to itself. *)
Variable hostToString : Value -> string.

Definition ToString (value : Value) : string :=
  match value with
  | VString s => s
  | _ => hostToString value
  end.

Section Loops.

Variable processParam : Value -> State -> Result State.

(** The rest of the fragment loop once [i] is past the end of [params]:
    [params[i]] reads [undefined], which [processParam] binds as a
    Literal, and [params.length > i] is false at the last fragment. *)
Fixpoint process_exhausted (fragments : list string) (st : State) : State :=
  match fragments with
  | [] => st
  | fragment :: later =>
      let st := appendText fragment st in
      match later with
      | [] => st
      | _ :: _ => process_exhausted later (bindLiteral VUndefined st)
      end
  end.

(** The fragment loop of [process] from iteration [i] on, given
    [fragments.slice(i)] and [params.slice(i)]. *)
Fixpoint process_loop (params : list Value) (fragments : list string)
  (st : State) {struct params} : Result State :=
  match fragments with
  | [] => Ok st
  | fragment :: later =>
      let st := appendText fragment st in
      match later with
      | [] =>
          (* i === fragments.length - 1 *)
          match params with
          | [] => Ok st
          | _ :: _ => Err (ParameterCountMismatch params)
          end
      | _ :: _ =>
          match params with
          | [] => Ok (process_exhausted later (bindLiteral VUndefined st))
          | param :: rest =>
              st <- processParam param st ;;
              process_loop rest later st
          end
      end
  end.

Definition process_with (fragments : list string) (params : list Value)
  (index : nat) : Result SqlQueryObject :=
  st <- process_loop params fragments
          {| cur_text := EmptyString; cur_values := []; cur_index := index |} ;;
  Ok {| text := cur_text st; values := cur_values st |}.

(** The loop of the List branch. *)
Fixpoint process_items (separator : string) (items : list Value) (st : State)
  {struct items} : Result State :=
  match items with
  | [] => Ok st
  | item :: rest =>
      st <- processParam item st ;;
      match rest with
      | [] => Ok st                        (* i === items.length - 1 *)
      | _ :: _ => process_items separator rest (appendText separator st)
      end
  end.

End Loops.

Fixpoint processParam (param : Value) (st : State) {struct param} : Result State :=
  match param with
  | VFunction call =>
      match call SubsqlEntrypoint with
      | Thrown message => Err (CallableThrew message)
      | Returned result =>
          match result with
          | VBox (BSubsql fragments params) =>
              processed <- process_with processParam fragments params (cur_index st) ;;
              Ok (splice processed st)
          | _ => processParam result st
          end
      end
  | VBox (BIdentifier value) => Ok (appendText (escapeIdentifier value) st)
  | VBox (BList items separator) => process_items processParam separator items st
  | VBox (BUnsafe value) => Ok (appendText (ToString value) st)
  | _ =>
      if isLiteral param then Ok (bindLiteral param st)
      else Err (UnsupportedValueType param)
  end.

Definition process (fragments : list string) (params : list Value) (index : nat)
  : Result SqlQueryObject :=
  process_with processParam fragments params index.

(** The same loop by its counter, as the source writes it: [todo] is the
    number of iterations left, [fragments.length - i]. *)
Fixpoint process_for (fragments : list string) (params : list Value)
  (todo i : nat) (st : State) : Result State :=
  match todo with
  | O => Ok st
  | S todo' =>
      let st := appendText (nth i fragments EmptyString) st in
      if i =? length fragments - 1 then
        if length params <=? i
        then process_for fragments params todo' (S i) st      (* continue *)
        else Err (ParameterCountMismatch (skipn i params))
      else
        st <- processParam (nth i params VUndefined) st ;;
        process_for fragments params todo' (S i) st
  end.

(** [index] defaults to 1. *)
Definition sql (fragments : FragmentsArg) (args : list Value)
  : Result SqlQueryObject :=
  match fragments with
  | NotAnArray _ => Err MalformedInvocation
  | TemplateStrings strings =>
      processed <- process strings args 1 ;;
      Ok {| text := format (text processed); values := values processed |}
  end.

End Processor.

Definition template (fragments : FragmentsArg) (args : list Value) : Result Value :=
  match fragments with
  | NotAnArray _ => Err MalformedInvocation
  | TemplateStrings strings =>
      Ok (VFunction (fun fn => Returned (invoke fn strings args)))
  end.

(* ------------------------------------------------------------------ *)
(** ** Specification vocabulary

    Nothing below is in the source: these are the notions the properties of
    the processor are stated with. *)

(** The output of the processor seen as a sequence of pieces: text taken over
    as it is, and holes, one per bound value, not numbered yet. *)
Inductive Segment : Type :=
| Raw (s : string)
| Hole (value : Value).

(** The text of a sequence whose first hole gets the number [index]. *)
Fixpoint render (index : nat) (segs : list Segment) : string :=
  match segs with
  | [] => EmptyString
  | Raw s :: rest => s ++ render index rest
  | Hole _ :: rest => String JS.dollar (JS.decimal index) ++ render (S index) rest
  end.

Fixpoint bound (segs : list Segment) : list Value :=
  match segs with
  | [] => []
  | Raw _ :: rest => bound rest
  | Hole value :: rest => value :: bound rest
  end.

(** A state after the pieces [segs] have been written to it. *)
Definition emit (segs : list Segment) (st : State) : State :=
  {| cur_text := cur_text st ++ render (cur_index st) segs;
     cur_values := cur_values st ++ bound segs;
     cur_index := cur_index st + length (bound segs) |}.

(** Numbered pieces: a placeholder carries its number and the value bound
    to it. *)
Inductive Token : Type :=
| Text (s : string)
| Placeholder (index : nat) (value : Value).

Definition placeholderText (index : nat) : string :=
  String JS.dollar (JS.decimal index).

Definition tokenText (t : Token) : string :=
  match t with
  | Text s => s
  | Placeholder index _ => placeholderText index
  end.

Fixpoint tokensText (ts : list Token) : string :=
  match ts with
  | [] => EmptyString
  | t :: rest => tokenText t ++ tokensText rest
  end.

Fixpoint placeholders (ts : list Token) : list (nat * Value) :=
  match ts with
  | [] => []
  | Text _ :: rest => placeholders rest
  | Placeholder index value :: rest => (index, value) :: placeholders rest
  end.

Fixpoint number (index : nat) (segs : list Segment) : list Token :=
  match segs with
  | [] => []
  | Raw s :: rest => Text s :: number index rest
  | Hole value :: rest => Placeholder index value :: number (S index) rest
  end.

(** [OnlySpaceRemoved s t]: [t] is [s] with some white space characters
    taken out and nothing else changed. *)
Inductive OnlySpaceRemoved : string -> string -> Prop :=
| osr_end : OnlySpaceRemoved EmptyString EmptyString
| osr_keep (c : ascii) (s t : string) :
    OnlySpaceRemoved s t -> OnlySpaceRemoved (String c s) (String c t)
| osr_drop (c : ascii) (s t : string) :
    JS.isWhiteSpace c = true -> OnlySpaceRemoved s t -> OnlySpaceRemoved (String c s) t.

(** A piece before and after formatting: a hole is the same hole, a text
    has lost white space at most. *)
Definition formattedPiece (before after : Segment) : Prop :=
  match before, after with
  | Raw s, Raw s' => OnlySpaceRemoved s s'
  | Hole value, Hole value' => value = value'
  | _, _ => False
  end.

(** The pieces a parameter expands to, computed without a state: the
    recursion of [processParam] with the writes collected. *)
Section Expansion.

Variable hostToString : Value -> string.

Section ExpandLoops.

Variable expandParam : Value -> Result (list Segment).

Fixpoint expand_exhausted (fragments : list string) : list Segment :=
  match fragments with
  | [] => []
  | fragment :: later =>
      Raw fragment ::
        match later with
        | [] => []
        | _ :: _ => Hole VUndefined :: expand_exhausted later
        end
  end.

Fixpoint expand_loop (params : list Value) (fragments : list string)
  {struct params} : Result (list Segment) :=
  match fragments with
  | [] => Ok []
  | fragment :: later =>
      match later with
      | [] =>
          match params with
          | [] => Ok [Raw fragment]
          | _ :: _ => Err (ParameterCountMismatch params)
          end
      | _ :: _ =>
          match params with
          | [] => Ok (Raw fragment :: Hole VUndefined :: expand_exhausted later)
          | param :: rest =>
              segs <- expandParam param ;;
              more <- expand_loop rest later ;;
              Ok (Raw fragment :: segs ++ more)
          end
      end
  end.

Fixpoint expand_items (separator : string) (items : list Value)
  {struct items} : Result (list Segment) :=
  match items with
  | [] => Ok []
  | item :: rest =>
      segs <- expandParam item ;;
      match rest with
      | [] => Ok segs
      | _ :: _ =>
          more <- expand_items separator rest ;;
          Ok (segs ++ Raw separator :: more)
      end
  end.

End ExpandLoops.

Fixpoint expandParam (param : Value) {struct param} : Result (list Segment) :=
  match param with
  | VFunction call =>
      match call SubsqlEntrypoint with
      | Thrown message => Err (CallableThrew message)
      | Returned result =>
          match result with
          | VBox (BSubsql fragments params) => expand_loop expandParam params fragments
          | _ => expandParam result
          end
      end
  | VBox (BIdentifier value) => Ok [Raw (escapeIdentifier value)]
  | VBox (BList items separator) => expand_items expandParam separator items
  | VBox (BUnsafe value) => Ok [Raw (ToString hostToString value)]
  | _ =>
      if isLiteral param then Ok [Hole param]
      else Err (UnsupportedValueType param)
  end.

Definition expand (fragments : list string) (params : list Value)
  : Result (list Segment) :=
  expand_loop expandParam params fragments.

End Expansion.

(** [processParam] writes to any state what [expandParam] computes, and
    fails where it fails. *)
Definition Expands (hostToString : Value -> string) (param : Value) : Prop :=
  forall st,
    processParam hostToString param st
    = (segs <- expandParam hostToString param ;; Ok (emit segs st)).

(** The pairing contract, for every bundle a callable of the parameter
    returns, at any depth: one fragment more than parameters. *)
Fixpoint paired (param : Value) : bool :=
  match param with
  | VFunction call =>
      match call SubsqlEntrypoint with
      | Thrown _ => true
      | Returned result =>
          match result with
          | VBox (BSubsql fragments params) =>
              (length fragments =? length params + 1) && forallb paired params
          | _ => paired result
          end
      end
  | VBox (BList items _) => forallb paired items
  | _ => true
  end.

(** [escapeIdentifier] in the words of its description: every double quote
    of [raw] doubled, the whole between one pair of double quotes. *)
Definition doubled (c : ascii) : list ascii :=
  if Ascii.eqb c JS.dquote then [c; c] else [c].

Definition quotedIdentifier (raw : string) : string :=
  string_of_list_ascii
    (JS.dquote :: flat_map doubled (list_ascii_of_string raw) ++ [JS.dquote]).

(** The formatter in the words of its description: the width is the least
    leading white space of the lines that are not blank, and it is taken off
    every line. *)
Definition dedentEveryLine (sql : string) : string :=
  let lines := JS.split JS.LF sql in
  let width := JS.Math_min (map leadingWidth (filter nonBlank lines)) in
  JS.join (JS.str JS.LF) (map (JS.slice width) lines).

(** [itemsProcessed host index items outs]: the items, processed one after
    the other on an empty buffer, the first at cursor [index] and each next
    one where the one before left the cursor, give the outputs [outs]. *)
Fixpoint itemsProcessed (hostToString : Value -> string) (index : nat)
  (items : list Value) (outs : list SqlQueryObject) : Prop :=
  match items, outs with
  | [], [] => True
  | item :: items', out :: outs' =>
      processParam hostToString item
        {| cur_text := EmptyString; cur_values := []; cur_index := index |}
      = Ok {| cur_text := text out;
              cur_values := values out;
              cur_index := index + length (values out) |}
      /\ itemsProcessed hostToString (index + length (values out)) items' outs'
  | _, _ => False
  end.

(** The coercion used in closed examples: none of them coerces a value that
    is not a string, so any function would do. *)
Definition objectToString : Value -> string := fun _ => "[object Object]".

(** The callable [(sql) => sql`ANY(${123}, ${456})`] of the test suite. *)
Definition anyOfTwo : Value :=
  VFunction (fun sql =>
    Returned (invoke sql ["ANY("; ", "; ")"] [VNumber 123%float; VNumber 456%float])).

(* ------------------------------------------------------------------ *)
(** ** Further vocabulary *)

(** Reading a quoted identifier back.  [readQuoted body] reads what follows
    the opening double quote: two double quotes in a row are one quote of
    the name, and a double quote that stands alone must be the last
    character. *)
Fixpoint readQuoted (body : string) : option string :=
  match body with
  | EmptyString => None
  | String c rest =>
      if Ascii.eqb c JS.dquote then
        match rest with
        | EmptyString => Some EmptyString
        | String d rest' =>
            if Ascii.eqb d JS.dquote
            then option_map (String JS.dquote) (readQuoted rest')
            else None
        end
      else option_map (String c) (readQuoted rest)
  end.

Definition readIdentifier (quoted : string) : option string :=
  match quoted with
  | EmptyString => None
  | String c body => if Ascii.eqb c JS.dquote then readQuoted body else None
  end.

(** The fragments with one placeholder between each two, numbered from
    [index]. *)
Fixpoint placeholdersBetween (index : nat) (fragments : list string) : string :=
  match fragments with
  | [] => EmptyString
  | fragment :: later =>
      match later with
      | [] => fragment
      | _ :: _ =>
          fragment ++ placeholderText index ++ placeholdersBetween (S index) later
      end
  end.




(** No line feed in a string. *)
Definition oneLine (p : string) : Prop :=
  forall c, In c (list_ascii_of_string p) -> c <> JS.LF.

(* ------------------------------------------------------------------ *)
(** ** The earlier revision: [escapeLiteral]

    The revision of the module that the [literal] test of the test suite
    exercises escapes string literals with this loop. *)

Module Legacy.

Definition quote : ascii := "039"%char.
Definition backslash : ascii := "092"%char.

(** The variables [escaped] and [hasBackslash] of the loop. *)
Record Escaping : Type := { escaped : string; hasBackslash : bool }.

(** One iteration, on the character [c = str[i]]. *)
Definition escapeChar (st : Escaping) (c : ascii) : Escaping :=
  if Ascii.eqb c quote then
    {| escaped := escaped st ++ String c (String c EmptyString);
       hasBackslash := hasBackslash st |}
  else if Ascii.eqb c backslash then
    {| escaped := escaped st ++ String c (String c EmptyString);
       hasBackslash := true |}
  else
    {| escaped := escaped st ++ String c EmptyString;
       hasBackslash := hasBackslash st |}.

Definition escapeLiteral (s : string) : string :=
  let st := fold_left escapeChar (list_ascii_of_string s)
              {| escaped := String quote EmptyString; hasBackslash := false |} in
  let escaped := (escaped st ++ String quote EmptyString)%string in
  if hasBackslash st then (" E" ++ escaped)%string else escaped.

(** The closed form: which characters are doubled, and whether a backslash
    occurs. *)
Definition doubledInLiteral (c : ascii) : list ascii :=
  if Ascii.eqb c quote || Ascii.eqb c backslash then [c; c] else [c].

Definition holdsBackslash (s : string) : bool :=
  existsb (Ascii.eqb backslash) (list_ascii_of_string s).

End Legacy.

(* ================================================================== *)
(** * Properties *)

(** ** The test suite of the repository

    The tests of [index.test.ts] that exercise functions of [index.ts],
    evaluated in the embedding. *)

Example test_simple_substitution :
  sql objectToString
    (TemplateStrings [String JS.LF "      SELECT * FROM accounts WHERE id = ";
                      String JS.LF "    "])
    [VNumber 12345%float]
  = Ok {| text := "SELECT * FROM accounts WHERE id = $1";
          values := [VNumber 12345%float] |}.
Proof. reflexivity. Qed.

Example test_function :
  sql objectToString
    (TemplateStrings [String JS.LF "      SELECT * FROM accounts WHERE id = ";
                      String JS.LF "    "])
    [anyOfTwo]
  = Ok {| text := "SELECT * FROM accounts WHERE id = ANY($1, $2)";
          values := [VNumber 123%float; VNumber 456%float] |}.
Proof. reflexivity. Qed.

Example test_identifier :
  sql objectToString
    (TemplateStrings [String JS.LF "      SELECT * FROM ";
                      (" WHERE id = 123" ++ String JS.LF "    ")%string])
    [Api.identifier "accounts"]
  = Ok {| text := "SELECT * FROM " ++ String JS.dquote "accounts"
                  ++ String JS.dquote " WHERE id = 123";
          values := [] |}.
Proof. reflexivity. Qed.

Example test_identifier_injection :
  sql objectToString
    (TemplateStrings [String JS.LF "      SELECT * FROM "; " WHERE id = 123"])
    [Api.identifier ("accounts " ++ String JS.dquote " --")%string]
  = Ok {| text := "SELECT * FROM " ++ String JS.dquote "accounts "
                  ++ String JS.dquote (String JS.dquote " --")
                  ++ String JS.dquote " WHERE id = 123";
          values := [] |}.
Proof. reflexivity. Qed.

Example test_template :
  (tmpl <- template (TemplateStrings ["archived_at IS NULL"]) [] ;;
   sql objectToString
     (TemplateStrings ["SELECT * FROM accounts WHERE "; EmptyString]) [tmpl])
  = Ok {| text := "SELECT * FROM accounts WHERE archived_at IS NULL";
          values := [] |}.
Proof. reflexivity. Qed.

Example test_list :
  sql objectToString
    (TemplateStrings [String JS.LF "      SELECT * FROM accounts WHERE id = ANY(";
                      (")" ++ String JS.LF "    ")%string])
    [Api.list [VNumber 123%float; VNumber 456%float] None]
  = Ok {| text := "SELECT * FROM accounts WHERE id = ANY($1, $2)";
          values := [VNumber 123%float; VNumber 456%float] |}.
Proof. reflexivity. Qed.

Example test_list_of_templates :
  (c1 <- template (TemplateStrings ["id = "; EmptyString]) [VNumber 123%float] ;;
   c2 <- template (TemplateStrings ["archived_at IS NULL"]) [] ;;
   c3 <- template (TemplateStrings ["name ILIKE "; EmptyString]) [VString "turbine%"] ;;
   sql objectToString
     (TemplateStrings [String JS.LF "      SELECT * FROM accounts WHERE ";
                       EmptyString])
     [Api.list [c1; c2; c3] (Some " AND ")])
  = Ok {| text := "SELECT * FROM accounts WHERE id = $1 AND archived_at IS NULL AND name ILIKE $2";
          values := [VNumber 123%float; VString "turbine%"] |}.
Proof. reflexivity. Qed.

Example test_unsafe :
  sql objectToString
    (TemplateStrings [String JS.LF "      SELECT * FROM accounts WHERE id = ";
                      String JS.LF "    "])
    [Api.unsafe (VString "'12345'")]
  = Ok {| text := "SELECT * FROM accounts WHERE id = '12345'"; values := [] |}.
Proof. reflexivity. Qed.

(** ** Strings *)

Lemma append_nil_r (s : string) : (s ++ EmptyString)%string = s.
Proof. induction s as [|c s IH]; simpl; [reflexivity | now rewrite IH]. Qed.

Lemma append_assoc (a b c : string) :
  ((a ++ b) ++ c)%string = (a ++ (b ++ c))%string.
Proof. induction a as [|x a IH]; simpl; [reflexivity | now rewrite IH]. Qed.

Lemma length_append (a b : string) :
  String.length (a ++ b) = String.length a + String.length b.
Proof. induction a as [|x a IH]; simpl; [reflexivity | now rewrite IH]. Qed.

Lemma append_inv_head (a b c : string) :
  (a ++ b)%string = (a ++ c)%string -> b = c.
Proof.
  induction a as [|x a IH]; simpl; intros H; [exact H|].
  injection H as H. auto.
Qed.

(** ** Pieces *)

Lemma render_app (segs more : list Segment) : forall index,
  render index (segs ++ more)
  = (render index segs ++ render (index + length (bound segs)) more)%string.
Proof.
  induction segs as [|[s|v] segs IH]; intros index; simpl.
  - now rewrite Nat.add_0_r.
  - now rewrite IH, append_assoc.
  - rewrite IH. simpl. now rewrite Nat.add_succ_r, append_assoc.
Qed.

Lemma bound_app (segs more : list Segment) :
  bound (segs ++ more) = bound segs ++ bound more.
Proof.
  induction segs as [|[s|v] segs IH]; simpl; [reflexivity | exact IH | now rewrite IH].
Qed.

Lemma emit_nil (st : State) : emit [] st = st.
Proof.
  destruct st as [t vs i]. unfold emit; simpl.
  now rewrite append_nil_r, app_nil_r, Nat.add_0_r.
Qed.

Lemma emit_app (segs more : list Segment) (st : State) :
  emit (segs ++ more) st = emit more (emit segs st).
Proof.
  destruct st as [t vs i]. unfold emit; simpl.
  rewrite render_app, bound_app, append_assoc, length_app, <- app_assoc, Nat.add_assoc.
  reflexivity.
Qed.

Lemma emit_cons (seg : Segment) (more : list Segment) (st : State) :
  emit (seg :: more) st = emit more (emit [seg] st).
Proof. exact (emit_app [seg] more st). Qed.

Lemma emit_raw (s : string) (st : State) : emit [Raw s] st = appendText s st.
Proof.
  destruct st as [t vs i]. unfold emit, appendText; simpl.
  now rewrite append_nil_r, app_nil_r, Nat.add_0_r.
Qed.

Lemma emit_hole (value : Value) (st : State) :
  emit [Hole value] st = bindLiteral value st.
Proof.
  destruct st as [t vs i]. unfold emit, bindLiteral; simpl.
  now rewrite append_nil_r.
Qed.

Lemma render_number (segs : list Segment) : forall index,
  render index segs = tokensText (number index segs).
Proof.
  induction segs as [|[s|v] segs IH]; intros index; simpl;
    [reflexivity | now rewrite IH | now rewrite IH].
Qed.

Lemma placeholders_number (segs : list Segment) : forall index,
  placeholders (number index segs)
  = combine (seq index (length (bound segs))) (bound segs).
Proof.
  induction segs as [|[s|v] segs IH]; intros index; simpl;
    [reflexivity | apply IH | now rewrite IH].
Qed.

(** ** Induction on values

    The principle follows the recursion of [processParam]: through the
    result of a callable, the parameters of a bundle it returns, and the
    items of a List. *)
Section ValueInduction.

Variable P : Value -> Prop.

Hypothesis P_function : forall call,
    match call SubsqlEntrypoint with
    | Returned (VBox (BSubsql _ params)) => Forall P params
    | Returned result => P result
    | Thrown _ => True
    end ->
    P (VFunction call).
Hypothesis P_list : forall items separator,
    Forall P items -> P (VBox (BList items separator)).
Hypothesis P_leaf : forall value,
    match value with
    | VFunction _ | VBox (BList _ _) => True
    | _ => P value
    end.

Lemma Value_processing_ind : forall value, P value.
Proof.
  fix IH 1. intros value.
  assert (all : forall l : list Value, Forall P l).
  { fix IHl 1. intros [|x rest]; constructor; [apply IH | apply IHl]. }
  destruct value as [s|x|b| | |t|bs|bs|props|elements|call|payload];
    try (match goal with |- P ?v => exact (P_leaf v) end).
  - apply P_function.
    destruct (call SubsqlEntrypoint) as [result|message]; [|exact I].
    pose proof (IH result) as Hresult.
    destruct result as [s|x|b| | |t|bs|bs|props|elements|call'|payload];
      try exact Hresult.
    destruct payload as [v|items separator|v|fragments params];
      try exact Hresult.
    apply all.
  - destruct payload as [v|items separator|v|fragments params];
      try (match goal with |- P ?v => exact (P_leaf v) end).
    apply P_list, all.
Qed.

End ValueInduction.

(** ** The fragment loop, by its counter

    [process_loop] walks the fragments and the parameters side by side;
    the source counts.  The two agree at every iteration. *)

Lemma processParam_undefined (host : Value -> string) (st : State) :
  processParam host VUndefined st = Ok (bindLiteral VUndefined st).
Proof. reflexivity. Qed.

Lemma process_loop_exhausted (host : Value -> string) (fragments : list string)
  (st : State) :
  process_loop (processParam host) [] fragments st
  = Ok (process_exhausted fragments st).
Proof. destruct fragments as [|fragment [|next later]]; reflexivity. Qed.

Lemma skipn_nth {A : Type} (default : A) (l : list A) : forall i,
  i < length l -> skipn i l = nth i l default :: skipn (S i) l.
Proof.
  induction l as [|x l IH]; intros [|i] H; cbn in *; try lia; [reflexivity|].
  apply IH. lia.
Qed.

Lemma process_for_loop (host : Value -> string) (fragments : list string)
  (params : list Value) : forall todo i st,
  todo = length fragments - i ->
  i <= length fragments ->
  process_for host fragments params todo i st
  = process_loop (processParam host) (skipn i params) (skipn i fragments) st.
Proof.
  induction todo as [|todo IH]; intros i st Htodo Hi.
  - rewrite (skipn_all2 fragments) by lia. cbn.
    now destruct (skipn i params).
  - cbn [process_for].
    rewrite (skipn_nth EmptyString fragments) by lia.
    destruct (Nat.eqb_spec i (length fragments - 1)) as [Hlast|Hmore].
    + rewrite (skipn_all2 fragments) by lia.
      destruct (Nat.leb_spec (length params) i) as [Hnone|Hsome].
      * rewrite (skipn_all2 params) by lia.
        assert (todo = 0) as -> by lia. reflexivity.
      * rewrite (skipn_nth VUndefined params) by lia. reflexivity.
    + assert (Hnext : skipn (S i) fragments
                      = nth (S i) fragments EmptyString :: skipn (S (S i)) fragments)
        by (apply skipn_nth; lia).
      destruct (Nat.leb_spec (length params) i) as [Hnone|Hsome].
      * rewrite (skipn_all2 params) by lia.
        rewrite (nth_overflow params) by lia.
        cbn [processParam isLiteral bind].
        rewrite IH by lia.
        rewrite (skipn_all2 (n := S i) params) by lia.
        rewrite Hnext, !process_loop_exhausted. reflexivity.
      * rewrite (skipn_nth VUndefined params i) by lia.
        rewrite Hnext. cbn [process_loop]. rewrite <- Hnext.
        destruct (processParam host (nth i params VUndefined)
                    (appendText (nth i fragments EmptyString) st)) as [st1|e];
          cbn [bind]; [|reflexivity].
        now rewrite IH by lia.
Qed.

(** [process] is the loop of the source run from [i = 0] on a fresh
    buffer. *)
Lemma process_by_counter (host : Value -> string) (fragments : list string)
  (params : list Value) (index : nat) :
  process host fragments params index
  = (st <- process_for host fragments params (length fragments) 0
             {| cur_text := EmptyString; cur_values := []; cur_index := index |} ;;
     Ok {| text := cur_text st; values := cur_values st |}).
Proof.
  unfold process, process_with.
  rewrite (process_for_loop host fragments params (length fragments) 0) by lia.
  reflexivity.
Qed.

(** ** Dispatch

    [processParam] is written above by cases on the value; the source tests
    [typeof], then [isIdentifier], [isList], [isUnsafe] and [isLiteral], in
    this order.  Each test selects the branch of its name. *)
Lemma processParam_dispatch (host : Value -> string) (param : Value) (st : State) :
  (isIdentifier param = true ->
   exists value,
     unwrap param = Ok (BIdentifier value)
     /\ processParam host param st = Ok (appendText (escapeIdentifier value) st))
  /\ (isList param = true ->
      exists items separator,
        unwrap param = Ok (BList items separator)
        /\ processParam host param st
           = process_items (processParam host) separator items st)
  /\ (isUnsafe param = true ->
      exists value,
        unwrap param = Ok (BUnsafe value)
        /\ processParam host param st = Ok (appendText (ToString host value) st))
  /\ (isFunction param = false -> isIdentifier param = false ->
      isList param = false -> isUnsafe param = false ->
      processParam host param st
      = if isLiteral param then Ok (bindLiteral param st)
        else Err (UnsupportedValueType param)).
Proof.
  repeat split.
  - destruct param as [ | | | | | | | | | | |[v|items separator|v|fragments params]];
      try discriminate. intros _. now exists v.
  - destruct param as [ | | | | | | | | | | |[v|items separator|v|fragments params]];
      try discriminate. intros _. now exists items, separator.
  - destruct param as [ | | | | | | | | | | |[v|items separator|v|fragments params]];
      try discriminate. intros _. now exists v.
  - destruct param as [ | | | | | | | | | | |[v|items separator|v|fragments params]];
      try discriminate; reflexivity.
Qed.

(** ** The processor writes exactly the pieces of the expansion *)

Section ProcessorFacts.

Variable host : Value -> string.

Lemma process_exhausted_expand (fragments : list string) : forall st,
  process_exhausted fragments st = emit (expand_exhausted fragments) st.
Proof.
  induction fragments as [|fragment later IH]; intros st.
  - now rewrite emit_nil.
  - cbn [process_exhausted expand_exhausted].
    rewrite emit_cons, emit_raw.
    destruct later as [|next later'].
    + now rewrite emit_nil.
    + now rewrite IH, emit_cons, emit_hole.
Qed.

Lemma process_loop_expand (params : list Value) :
  Forall (Expands host) params ->
  forall fragments st,
    process_loop (processParam host) params fragments st
    = (segs <- expand_loop (expandParam host) params fragments ;;
       Ok (emit segs st)).
Proof.
  induction 1 as [|param rest Hparam _ IH]; intros [|fragment later] st;
    cbn [process_loop expand_loop bind].
  - now rewrite emit_nil.
  - destruct later as [|next later']; cbn [bind].
    + now rewrite emit_raw.
    + rewrite process_exhausted_expand.
      now rewrite (emit_cons (Raw fragment)), emit_raw, (emit_cons (Hole _)), emit_hole.
  - now rewrite emit_nil.
  - destruct later as [|next later']; [reflexivity|].
    rewrite Hparam.
    destruct (expandParam host param) as [segs|e]; cbn [bind]; [|reflexivity].
    rewrite IH.
    destruct (expand_loop (expandParam host) rest (next :: later')) as [more|e];
      cbn [bind]; [|reflexivity].
    now rewrite (emit_cons (Raw fragment)), emit_raw, emit_app.
Qed.

Lemma process_items_expand (separator : string) (items : list Value) :
  Forall (Expands host) items ->
  forall st,
    process_items (processParam host) separator items st
    = (segs <- expand_items (expandParam host) separator items ;;
       Ok (emit segs st)).
Proof.
  induction 1 as [|item rest Hitem _ IH]; intros st;
    cbn [process_items expand_items bind].
  - now rewrite emit_nil.
  - rewrite Hitem.
    destruct (expandParam host item) as [segs|e]; cbn [bind]; [|reflexivity].
    destruct rest as [|next rest']; [reflexivity|].
    rewrite IH.
    destruct (expand_items (expandParam host) separator (next :: rest')) as [more|e];
      cbn [bind]; [|reflexivity].
    now rewrite emit_app, (emit_cons (Raw separator)), emit_raw.
Qed.

Lemma processParam_expand (param : Value) : Expands host param.
Proof.
  revert param. apply (Value_processing_ind (Expands host)).
  - (* a callable *)
    intros call H st. cbn [processParam expandParam].
    destruct (call SubsqlEntrypoint) as [result|message]; [|reflexivity].
    destruct result as [s|x|b| | |t|bs|bs|props|elements|call'|payload];
      try apply H.
    destruct payload as [v|items separator|v|fragments params]; try apply H.
    unfold process_with. rewrite (process_loop_expand params H).
    destruct (expand_loop (expandParam host) params fragments) as [segs|e];
      cbn [bind]; [|reflexivity].
    destruct st as [t vs i]. unfold emit, splice. cbn.
    reflexivity.
  - (* a List *)
    intros items separator H st. cbn [processParam expandParam].
    now apply process_items_expand.
  - intros value.
    destruct value as [s|x|b| | |t|bs|bs|props|elements|call|payload];
      try exact I; try (intros st; cbn; now rewrite ?emit_hole).
    destruct payload as [v|items separator|v|fragments params];
      try exact I; intros st; cbn [processParam expandParam bind isLiteral];
      now rewrite ?emit_raw.
Qed.

Lemma process_expand (fragments : list string) (params : list Value) (index : nat) :
  process host fragments params index
  = (segs <- expand host fragments params ;;
     Ok {| text := render index segs; values := bound segs |}).
Proof.
  unfold process, process_with, expand.
  rewrite process_loop_expand.
  - now destruct (expand_loop (expandParam host) params fragments).
  - apply Forall_forall. intros param _. apply processParam_expand.
Qed.

End ProcessorFacts.

(** ** Escaping *)

Lemma string_of_list_ascii_app (a b : list ascii) :
  string_of_list_ascii (a ++ b)
  = (string_of_list_ascii a ++ string_of_list_ascii b)%string.
Proof. induction a as [|x a IH]; simpl; [reflexivity | now rewrite IH]. Qed.

Lemma replaceAll_dquote_doubles (raw : string) :
  JS.replaceAll JS.dquote (String JS.dquote (JS.str JS.dquote)) raw
  = string_of_list_ascii (flat_map doubled (list_ascii_of_string raw)).
Proof.
  induction raw as [|c raw IH]; [reflexivity|].
  cbn [JS.replaceAll list_ascii_of_string flat_map].
  rewrite string_of_list_ascii_app, IH. unfold doubled.
  destruct (Ascii.eqb_spec c JS.dquote) as [->|_]; reflexivity.
Qed.

(** C2.  [escapeIdentifier raw] is [raw] with every double quote doubled,
    between one pair of double quotes; the name of the test suite that holds
    a double quote comes out with that quote doubled; and processing an
    Identifier appends this text and leaves the values and the index cursor
    as they were. *)
Theorem identifier_escaped_and_inlined :
  forall (host : Value -> string) (raw : string) (st : State),
    escapeIdentifier raw = quotedIdentifier raw
    /\ escapeIdentifier ("accounts " ++ String JS.dquote " --")
       = String JS.dquote
           ("accounts " ++ String JS.dquote (String JS.dquote (" --" ++ JS.str JS.dquote)))
    /\ processParam host (Api.identifier raw) st
       = Ok {| cur_text := cur_text st ++ escapeIdentifier raw;
               cur_values := cur_values st;
               cur_index := cur_index st |}.
Proof.
  intros host raw st. split; [|split; reflexivity].
  unfold escapeIdentifier, quotedIdentifier.
  rewrite replaceAll_dquote_doubles.
  cbn [string_of_list_ascii]. rewrite string_of_list_ascii_app. reflexivity.
Qed.

(** ** Classification *)



(** ** Unsafe *)


(** ** The default separator *)

(** C10.  [list] without a separator gives the List that [list] with the
    separator [", "] gives: the separator is a comma and a space, two
    characters.  [identifiers] passes its separator on, so it has the same
    default. *)
Theorem list_default_separator :
  forall items : list Value,
    Api.list items None = Api.list items (Some ", ")
    /\ Api.list items None
       = VBox (BList items (String ","%char (String " "%char EmptyString)))
    /\ (forall names,
          Api.identifiers names None
          = Api.list (map Api.identifier names) (Some ", ")).
Proof. intros items. repeat split. Qed.

(** ** Numbered placeholders *)

Lemma expansion_tokens (segs : list Segment) (index : nat) :
  exists tokens,
    render index segs = tokensText tokens
    /\ placeholders tokens
       = combine (seq index (length (bound segs))) (bound segs).
Proof.
  exists (number index segs). split.
  - apply render_number.
  - apply placeholders_number.
Qed.

Lemma process_tokens (host : Value -> string) (fragments : list string)
  (params : list Value) (index : nat) (processed : SqlQueryObject) :
  process host fragments params index = Ok processed ->
  exists tokens,
    text processed = tokensText tokens
    /\ placeholders tokens
       = combine (seq index (length (values processed))) (values processed).
Proof.
  rewrite process_expand.
  destruct (expand host fragments params) as [segs|e]; cbn [bind]; [|discriminate].
  intros [= <-]. apply expansion_tokens.
Qed.

(** ** Callables *)

(** C3.  A callable parameter is called with [subsql].  When it returns a
    bundle, the bundle is processed at the current index cursor and its text
    and values are spliced in, so its placeholders are numbered from the
    cursor on; when it returns anything else, that result is processed as a
    parameter.  The callable of the test suite gives the text ANY($1, $2)
    after the fragment before it, with the values 123 and 456. *)
Theorem callable_parameter :
  forall (host : Value -> string) (call : Entrypoint -> Completion Value)
         (result : Value) (st : State),
    call SubsqlEntrypoint = Returned result ->
    (forall fragments params,
        result = subsql fragments params ->
        processParam host (VFunction call) st
        = (processed <- process host fragments params (cur_index st) ;;
           Ok (splice processed st))
        /\ forall processed,
            process host fragments params (cur_index st) = Ok processed ->
            exists tokens,
              text processed = tokensText tokens
              /\ placeholders tokens
                 = combine (seq (cur_index st) (length (values processed)))
                           (values processed))
    /\ (isSubsql result = false ->
        processParam host (VFunction call) st = processParam host result st)
    /\ (forall before,
          process host [before; EmptyString] [anyOfTwo] 1
          = Ok {| text := before ++ "ANY($1, $2)";
                  values := [VNumber 123%float; VNumber 456%float] |}
          /\ sql host (TemplateStrings [before; EmptyString]) [anyOfTwo]
             = Ok {| text := format (before ++ "ANY($1, $2)");
                     values := [VNumber 123%float; VNumber 456%float] |}).
Proof.
  intros host call result st Hcall. split; [|split].
  - intros fragments params ->. split.
    + cbn [processParam]. rewrite Hcall. reflexivity.
    + intros processed. apply process_tokens.
  - intros Hother. cbn [processParam]. rewrite Hcall.
    destruct result as [s|x|b| | |t|bs|bs|props|elements|call'|payload];
      try reflexivity.
    destruct payload; try reflexivity. discriminate Hother.
  - intros before.
    assert (H : process host [before; EmptyString] [anyOfTwo] 1
                = Ok {| text := before ++ "ANY($1, $2)";
                        values := [VNumber 123%float; VNumber 456%float] |}).
    { cbn. rewrite append_nil_r. reflexivity. }
    split; [exact H|].
    unfold sql. rewrite H. reflexivity.
Qed.

Lemma callable_parameter_witness :
  processParam objectToString anyOfTwo
    {| cur_text := "id = "; cur_values := [VNumber 7%float]; cur_index := 2 |}
  = (processed <- process objectToString ["ANY("; ", "; ")"]
                    [VNumber 123%float; VNumber 456%float] 2 ;;
     Ok (splice processed
           {| cur_text := "id = "; cur_values := [VNumber 7%float]; cur_index := 2 |})).
Proof.
  apply (proj1 (callable_parameter objectToString
                  (fun sql => Returned (invoke sql ["ANY("; ", "; ")"]
                                          [VNumber 123%float; VNumber 456%float]))
                  _
                  {| cur_text := "id = "; cur_values := [VNumber 7%float]; cur_index := 2 |}
                  eq_refl)).
  reflexivity.
Defined.

(** ** No parameter *)

(** C9, as the code has it.  A fragment sequence with no parameter is one
    fragment; the processor returns the concatenation of the fragments and
    no value, and the composer returns the formatter applied to that
    concatenation, and no value. *)
Theorem no_parameters :
  forall (host : Value -> string) (fragments : list string),
    length fragments = length (@nil Value) + 1 ->
    process host fragments [] 1
    = Ok {| text := String.concat EmptyString fragments; values := [] |}
    /\ sql host (TemplateStrings fragments) []
       = Ok {| text := format (String.concat EmptyString fragments); values := [] |}.
Proof.
  intros host [|fragment [|next later]] Hlength; try discriminate Hlength.
  split; reflexivity.
Qed.

Lemma no_parameters_witness :
  sql objectToString (TemplateStrings ["SELECT 1"]) []
  = Ok {| text := format (String.concat EmptyString ["SELECT 1"]); values := [] |}.
Proof.
  apply (proj2 (no_parameters objectToString ["SELECT 1"] eq_refl)).
Defined.

(** C9, as stated, fails: the composer formats the text, so a fragment that
    starts with white space does not come out as it went in. *)
Lemma no_parameters_text_is_formatted :
  sql objectToString (TemplateStrings ["  SELECT 1"]) []
  = Ok {| text := "SELECT 1"; values := [] |}
  /\ "SELECT 1" <> String.concat EmptyString ["  SELECT 1"].
Proof. split; [reflexivity | discriminate]. Qed.

(** ** Lists *)

(** What a parameter writes does not depend on the text and values already
    there: it is what it writes to an empty buffer at the same cursor. *)
Lemma processParam_frame (host : Value -> string) (param : Value) (st st' : State) :
  processParam host param st = Ok st' ->
  exists out,
    processParam host param
      {| cur_text := EmptyString; cur_values := []; cur_index := cur_index st |}
    = Ok {| cur_text := text out;
            cur_values := values out;
            cur_index := cur_index st + length (values out) |}
    /\ st' = splice out st.
Proof.
  rewrite !processParam_expand.
  destruct (expandParam host param) as [segs|e]; cbn [bind]; [|discriminate].
  intros [= <-].
  exists {| text := render (cur_index st) segs; values := bound segs |}.
  split; reflexivity.
Qed.

Lemma itemsProcessed_length (host : Value -> string) (items : list Value) :
  forall index outs, itemsProcessed host index items outs -> length outs = length items.
Proof.
  induction items as [|item rest IH]; intros index [|out outs] H; cbn in H;
    try contradiction; [reflexivity|].
  destruct H as [_ H]. cbn. f_equal. exact (IH _ _ H).
Qed.

Lemma length_join (separator : string) (pieces : list string) :
  String.length (JS.join separator pieces)
  = list_sum (map String.length pieces)
    + (length pieces - 1) * String.length separator.
Proof.
  unfold JS.join.
  induction pieces as [|piece [|next rest] IH].
  - reflexivity.
  - simpl. lia.
  - change (String.concat separator (piece :: next :: rest))
      with (piece ++ separator ++ String.concat separator (next :: rest))%string.
    rewrite !length_append, IH. simpl. lia.
Qed.

Lemma process_items_outputs (host : Value -> string) (separator : string)
  (items : list Value) : forall st st',
  process_items (processParam host) separator items st = Ok st' ->
  exists outs,
    itemsProcessed host (cur_index st) items outs
    /\ cur_text st' = (cur_text st ++ JS.join separator (map text outs))%string
    /\ cur_values st' = cur_values st ++ concat (map values outs).
Proof.
  induction items as [|item rest IH]; intros st st'; cbn [process_items].
  - intros [= <-]. exists []. cbn. now rewrite append_nil_r, app_nil_r.
  - destruct (processParam host item st) as [st1|e] eqn:Hitem; cbn [bind];
      [|discriminate].
    destruct (processParam_frame _ _ _ _ Hitem) as [out [Hout ->]].
    destruct rest as [|next rest'].
    + intros [= <-]. exists [out]. cbn. now rewrite app_nil_r.
    + intros Hrest. destruct (IH _ _ Hrest) as [outs [Houts [Htext Hvalues]]].
      exists (out :: outs). split; [|split].
      * split; [exact Hout | exact Houts].
      * rewrite Htext. destruct outs as [|out' outs']; [contradiction|].
        cbn. now rewrite !append_assoc.
      * rewrite Hvalues. cbn. now rewrite app_assoc.
Qed.

(** C5.  A List of N items that is processed has written, after the text
    already there, the texts of its items in order, each item processed at
    the cursor the one before left, joined by the separator as it is: N-1
    separators, so none when N is 0 or 1.  Its values are those of the items
    in order. *)
Theorem list_separators :
  forall (host : Value -> string) (items : list Value) (separator : string)
         (st st' : State),
    processParam host (Api.list items (Some separator)) st = Ok st' ->
    exists outs,
      length outs = length items
      /\ itemsProcessed host (cur_index st) items outs
      /\ cur_text st' = (cur_text st ++ JS.join separator (map text outs))%string
      /\ cur_values st' = cur_values st ++ concat (map values outs)
      /\ String.length (JS.join separator (map text outs))
         = list_sum (map String.length (map text outs))
           + (length items - 1) * String.length separator
      /\ (items = [] -> st' = st)
      /\ (forall item, items = [item] -> processParam host item st = Ok st').
Proof.
  intros host items separator st st' H.
  change (process_items (processParam host) separator items st = Ok st') in H.
  destruct (process_items_outputs _ _ _ _ _ H) as [outs [Houts [Htext Hvalues]]].
  exists outs.
  pose proof (itemsProcessed_length _ _ _ _ Houts) as Hlength.
  repeat split; try assumption.
  - rewrite length_join, length_map, Hlength. reflexivity.
  - intros ->. cbn in H. now injection H.
  - intros item ->. cbn in H.
    destruct (processParam host item st); cbn in H; [exact H | discriminate H].
Qed.

Lemma list_separators_witness :
  exists outs,
    length outs = 3
    /\ cur_text {| cur_text := "IN ($1, $2, $3"; cur_values := []; cur_index := 4 |}
       = ("IN (" ++ JS.join ", " (map text outs))%string.
Proof.
  destruct (list_separators objectToString
              [VString "a"; VString "b"; VString "c"] ", "
              {| cur_text := "IN ("; cur_values := []; cur_index := 1 |}
              {| cur_text := "IN ($1, $2, $3";
                 cur_values := [VString "a"; VString "b"; VString "c"];
                 cur_index := 4 |}
              eq_refl)
    as [outs [Hlength [_ [Htext _]]]].
  exists outs. split; [exact Hlength | exact Htext].
Defined.

(** ** The parameter count *)

Lemma processParam_succeeds_expands (host : Value -> string) (param : Value) :
  (forall st, exists st', processParam host param st = Ok st') ->
  exists segs, expandParam host param = Ok segs.
Proof.
  intros H.
  destruct (H {| cur_text := EmptyString; cur_values := []; cur_index := 1 |})
    as [st' Hst'].
  rewrite processParam_expand in Hst'.
  destruct (expandParam host param) as [segs|e]; [now exists segs | discriminate Hst'].
Qed.

Lemma expand_loop_surplus (host : Value -> string) (fragments : list string) :
  forall params,
    fragments <> [] ->
    length fragments <= length params ->
    (exists e, expand_loop (expandParam host) params fragments = Err e)
    /\ ((forall param, In param (firstn (length fragments - 1) params) ->
         exists segs, expandParam host param = Ok segs) ->
        expand_loop (expandParam host) params fragments
        = Err (ParameterCountMismatch (skipn (length fragments - 1) params))).
Proof.
  induction fragments as [|fragment later IH]; intros params Hne Hle;
    [contradiction|].
  destruct later as [|next later'].
  - destruct params as [|param rest]; [cbn in Hle; lia|].
    cbn. split; [eexists|]; reflexivity.
  - destruct params as [|param rest]; [cbn in Hle; lia|].
    cbn [expand_loop].
    assert (Hle' : length (next :: later') <= length rest) by (cbn in *; lia).
    destruct (IH rest ltac:(discriminate) Hle') as [[e He] Hrest].
    split.
    + destruct (expandParam host param) as [segs|e']; cbn [bind];
        [|now exists e'].
      rewrite He. now exists e.
    + intros Hfirst.
      replace (length (fragment :: next :: later') - 1)
        with (S (length (next :: later') - 1)) in * by (cbn; lia).
      cbn [firstn skipn] in *.
      destruct (Hfirst param (or_introl eq_refl)) as [segs ->]. cbn [bind].
      rewrite Hrest; [reflexivity|].
      intros p Hp. apply Hfirst. now right.
Qed.

Lemma expand_loop_paired (host : Value -> string) (params : list Value) :
  Forall (fun param => paired param = true ->
                       forall extra,
                         expandParam host param <> Err (ParameterCountMismatch extra))
         params ->
  forallb paired params = true ->
  forall fragments extra,
    length fragments = length params + 1 ->
    expand_loop (expandParam host) params fragments
    <> Err (ParameterCountMismatch extra).
Proof.
  induction 1 as [|param rest Hparam _ IH]; intros Hpaired fragments extra Hlength.
  - destruct fragments as [|fragment [|next later]]; try discriminate Hlength.
    discriminate.
  - cbn in Hpaired. apply andb_prop in Hpaired as [Hp Hrest].
    destruct fragments as [|fragment [|next later]]; cbn in Hlength; try lia.
    cbn [expand_loop].
    destruct (expandParam host param) as [segs|e] eqn:Hsegs; cbn [bind].
    + specialize (IH Hrest (next :: later) extra ltac:(cbn; lia)).
      destruct (expand_loop (expandParam host) rest (next :: later)); cbn [bind];
        [discriminate | exact IH].
    + apply (Hparam Hp).
Qed.

Lemma expand_items_paired (host : Value -> string) (separator : string)
  (items : list Value) :
  Forall (fun param => paired param = true ->
                       forall extra,
                         expandParam host param <> Err (ParameterCountMismatch extra))
         items ->
  forallb paired items = true ->
  forall extra,
    expand_items (expandParam host) separator items
    <> Err (ParameterCountMismatch extra).
Proof.
  induction 1 as [|item rest Hitem _ IH]; intros Hpaired extra; [discriminate|].
  cbn in Hpaired. apply andb_prop in Hpaired as [Hp Hrest].
  cbn [expand_items].
  destruct (expandParam host item) as [segs|e] eqn:Hsegs; cbn [bind].
  - destruct rest as [|next rest']; [discriminate|].
    specialize (IH Hrest extra).
    destruct (expand_items (expandParam host) separator (next :: rest'));
      cbn [bind]; [discriminate | exact IH].
  - apply (Hitem Hp).
Qed.

Lemma expandParam_paired (host : Value -> string) (param : Value) :
  paired param = true ->
  forall extra, expandParam host param <> Err (ParameterCountMismatch extra).
Proof.
  revert param.
  apply (Value_processing_ind
           (fun param => paired param = true ->
                         forall extra,
                           expandParam host param <> Err (ParameterCountMismatch extra))).
  - intros call H Hpaired extra. cbn [paired expandParam] in *.
    destruct (call SubsqlEntrypoint) as [result|message]; [|discriminate].
    destruct result as [s|x|b| | |t|bs|bs|props|elements|call'|payload];
      try (apply H; exact Hpaired).
    destruct payload as [v|items separator|v|fragments params];
      try (apply H; exact Hpaired).
    apply andb_prop in Hpaired as [Hlength Hparams].
    apply Nat.eqb_eq in Hlength.
    now apply expand_loop_paired.
  - intros items separator H Hpaired extra. cbn [paired expandParam] in *.
    now apply expand_items_paired.
  - intros value.
    destruct value as [s|x|b| | |t|bs|bs|props|elements|call|payload];
      try exact I; try (intros _ extra; cbn; discriminate).
    destruct payload as [v|items separator|v|fragments params];
      try exact I; intros _ extra; cbn; discriminate.
Qed.

(** C6, as the code has it.  With at least one fragment and at least as many
    parameters as fragments, processing fails; it fails with
    ParameterCountMismatch, on the parameters from the last fragment on, when
    the parameters paired with the fragments before the last are processed
    without error.  When there is one fragment more than parameters, here and
    in every bundle a callable returns, ParameterCountMismatch is not
    raised. *)
Theorem parameter_count_mismatch :
  forall (host : Value -> string) (fragments : list string) (params : list Value)
         (index : nat),
    (fragments <> [] ->
     length fragments <= length params ->
     (exists e, process host fragments params index = Err e)
     /\ ((forall param, In param (firstn (length fragments - 1) params) ->
          forall st, exists st', processParam host param st = Ok st') ->
         process host fragments params index
         = Err (ParameterCountMismatch (skipn (length fragments - 1) params))))
    /\ (length fragments = length params + 1 ->
        forallb paired params = true ->
        forall extra,
          process host fragments params index <> Err (ParameterCountMismatch extra)).
Proof.
  intros host fragments params index. rewrite process_expand. unfold expand. split.
  - intros Hne Hle.
    destruct (expand_loop_surplus host fragments params Hne Hle) as [[e He] Hfirst].
    split.
    + exists e. now rewrite He.
    + intros Hok. rewrite Hfirst; [reflexivity|].
      intros param Hin. apply processParam_succeeds_expands. now apply Hok.
  - intros Hlength Hpaired extra.
    pose proof (expand_loop_paired host params) as H.
    specialize (H ltac:(apply Forall_forall; intros p _; apply expandParam_paired)
                  Hpaired fragments extra Hlength).
    destruct (expand_loop (expandParam host) params fragments); cbn [bind];
      [discriminate|].
    intros [= ->]. now apply H.
Qed.

Lemma parameter_count_mismatch_witness :
  process objectToString ["a = "; " AND b = "]
    [VNumber 1%float; VNumber 2%float; VNumber 3%float] 1
  = Err (ParameterCountMismatch [VNumber 2%float; VNumber 3%float])
  /\ process objectToString ["a = "; EmptyString] [anyOfTwo] 1
     <> Err (ParameterCountMismatch [VNumber 456%float]).
Proof.
  split.
  - apply (proj1 (parameter_count_mismatch objectToString ["a = "; " AND b = "]
                    [VNumber 1%float; VNumber 2%float; VNumber 3%float] 1)).
    + discriminate.
    + cbn. lia.
    + intros param [<-|[]] st. eexists. reflexivity.
  - apply (proj2 (parameter_count_mismatch objectToString ["a = "; EmptyString]
                    [anyOfTwo] 1)); reflexivity.
Defined.

(** C6, as stated, fails twice.  With as many parameters as fragments, a
    parameter that is not supported fails first, with UnsupportedValueType;
    and an invocation that has one fragment more than parameters raises
    ParameterCountMismatch when a callable returns a bundle that has not. *)
Lemma parameter_count_mismatch_preempted :
  (length ["a"; "b"] <= length [VObject []; VNumber 1%float]
   /\ process objectToString ["a"; "b"] [VObject []; VNumber 1%float] 1
      = Err (UnsupportedValueType (VObject [])))
  /\ (length ["a"; "b"]
      = length [VFunction (fun sql => Returned (invoke sql ["x"] [VNumber 1%float]))] + 1
      /\ process objectToString ["a"; "b"]
           [VFunction (fun sql => Returned (invoke sql ["x"] [VNumber 1%float]))] 1
         = Err (ParameterCountMismatch [VNumber 1%float])).
Proof. repeat split. cbn. lia. Qed.

(** ** The formatter *)

Lemma join_cons (separator piece : string) (pieces : list string) :
  JS.join separator (piece :: pieces)
  = match pieces with
    | [] => piece
    | _ :: _ => (piece ++ separator ++ JS.join separator pieces)%string
    end.
Proof. destruct pieces; reflexivity. Qed.

Lemma split_nonempty (sep : ascii) (s : string) : JS.split sep s <> [].
Proof.
  destruct s as [|a rest]; cbn; [discriminate|].
  destruct (Ascii.eqb a sep); [discriminate|].
  destruct (JS.split sep rest); discriminate.
Qed.

Lemma join_split (s : string) : JS.join (JS.str JS.LF) (JS.split JS.LF s) = s.
Proof.
  induction s as [|a rest IH]; [reflexivity|].
  cbn [JS.split].
  destruct (Ascii.eqb_spec a JS.LF) as [->|_].
  - rewrite join_cons.
    destruct (JS.split JS.LF rest) eqn:Hsplit; [now apply split_nonempty in Hsplit|].
    rewrite IH. reflexivity.
  - destruct (JS.split JS.LF rest) as [|piece pieces] eqn:Hsplit;
      [now apply split_nonempty in Hsplit|].
    rewrite join_cons. rewrite join_cons in IH.
    destruct pieces; cbn; now rewrite <- IH.
Qed.

Lemma osr_refl (s : string) : OnlySpaceRemoved s s.
Proof. induction s; constructor; assumption. Qed.

Lemma osr_app (a a' b b' : string) :
  OnlySpaceRemoved a a' -> OnlySpaceRemoved b b' ->
  OnlySpaceRemoved (a ++ b) (a' ++ b').
Proof.
  intros Ha Hb. induction Ha; cbn; [exact Hb | now constructor | now constructor].
Qed.

Lemma osr_blank (p : string) :
  JS.matchesBlank p = true -> OnlySpaceRemoved p EmptyString.
Proof.
  induction p as [|a rest IH]; cbn; intros H; [constructor|].
  apply andb_prop in H as [Ha Hrest]. apply osr_drop; auto.
Qed.

Lemma osr_blank_app (p b b' : string) :
  JS.matchesBlank p = true -> OnlySpaceRemoved b b' ->
  OnlySpaceRemoved (p ++ b) b'.
Proof.
  intros Hp Hb. exact (osr_app _ _ _ _ (osr_blank p Hp) Hb).
Qed.

Lemma length_trimStart (p : string) :
  String.length (JS.trimStart p) <= String.length p.
Proof.
  induction p as [|a rest IH]; cbn; [lia|].
  destruct (JS.isWhiteSpace a); cbn; lia.
Qed.

Lemma leadingWidth_cons (a : ascii) (rest : string) :
  leadingWidth (String a rest)
  = if JS.isWhiteSpace a then S (leadingWidth rest) else 0.
Proof.
  unfold leadingWidth. cbn [JS.trimStart].
  pose proof (length_trimStart rest).
  destruct (JS.isWhiteSpace a); cbn [String.length]; lia.
Qed.

(** The first [width] characters of a line with that much leading white
    space are white space, and [drop] takes exactly them off. *)
Lemma drop_indent (width : nat) : forall p,
  width <= leadingWidth p ->
  exists indent,
    p = (indent ++ JS.drop width p)%string
    /\ String.length indent = width
    /\ JS.matchesBlank indent = true.
Proof.
  induction width as [|width IH]; intros p Hwidth.
  - exists EmptyString. destruct p; repeat split.
  - destruct p as [|a rest]; [cbn in Hwidth; lia|].
    rewrite leadingWidth_cons in Hwidth.
    destruct (JS.isWhiteSpace a) eqn:Ha; [|lia].
    destruct (IH rest ltac:(lia)) as [indent [Hrest [Hlength Hblank]]].
    exists (String a indent). cbn. rewrite Ha, Hlength, Hblank, <- Hrest.
    repeat split.
Qed.

Lemma drop_leadingWidth (p : string) : JS.drop (leadingWidth p) p = JS.trimStart p.
Proof.
  induction p as [|a rest IH]; [reflexivity|].
  rewrite leadingWidth_cons. cbn [JS.trimStart].
  destruct (JS.isWhiteSpace a); [exact IH | reflexivity].
Qed.

Lemma Math_min_least (lengths : list nat) :
  lengths <> [] ->
  exists width,
    JS.Math_min lengths = JS.Finite width
    /\ Forall (fun n => width <= n) lengths
    /\ In width lengths.
Proof.
  induction lengths as [|n rest IH]; intros Hne; [contradiction|].
  cbn [JS.Math_min]. destruct rest as [|n' rest'].
  - exists n. cbn. repeat split; [constructor; [lia | constructor] | now left].
  - destruct (IH ltac:(discriminate)) as [m [-> [Hall Hin]]].
    exists (Nat.min n m). split; [reflexivity|]. split.
    + constructor; [lia|].
      eapply Forall_impl; [|exact Hall]. cbn. intros; lia.
    + destruct (Nat.min_spec n m) as [[_ ->]|[_ ->]]; [now left | now right].
Qed.

Lemma osr_join_filter (f : string -> string) (lines : list string) :
  (forall p, In p lines -> nonBlank p = true -> OnlySpaceRemoved p (f p)) ->
  OnlySpaceRemoved (JS.join (JS.str JS.LF) lines)
                   (JS.join (JS.str JS.LF) (map f (filter nonBlank lines))).
Proof.
  induction lines as [|line rest IH]; intros Hf; [constructor|].
  specialize (IH (fun p Hp => Hf p (or_intror Hp))).
  assert (Hnl : forall s t, OnlySpaceRemoved s t ->
                            OnlySpaceRemoved (JS.str JS.LF ++ s) t)
    by (intros s t Hst; apply osr_drop; [reflexivity | exact Hst]).
  rewrite join_cons. cbn [filter].
  destruct (nonBlank line) eqn:Hline.
  - cbn [map]. rewrite join_cons.
    pose proof (Hf line (or_introl eq_refl) Hline) as Hkept.
    destruct rest as [|next rest']; [exact Hkept|].
    destruct (map f (filter nonBlank (next :: rest'))) as [|out outs].
    + rewrite <- (append_nil_r (f line)). apply osr_app; [exact Hkept|].
      apply Hnl, IH.
    + apply osr_app; [exact Hkept|]. cbn. apply osr_keep, IH.
  - apply negb_false_iff in Hline.
    destruct rest as [|next rest']; [now apply osr_blank|].
    apply osr_blank_app; [exact Hline|]. apply Hnl, IH.
Qed.

(** The formatter keeps the lines that are not blank, in order, and takes
    the same number of leading white space characters off each: the least
    leading width among them. *)
Lemma format_lines (sql : string) :
  exists (width : nat) (outs : list string),
    format sql = JS.join (JS.str JS.LF) outs
    /\ Forall2 (fun line out =>
                  exists indent,
                    line = (indent ++ out)%string
                    /\ String.length indent = width
                    /\ JS.matchesBlank indent = true)
               (filter nonBlank (JS.split JS.LF sql)) outs
    /\ Forall (fun line => width <= leadingWidth line)
              (filter nonBlank (JS.split JS.LF sql))
    /\ (outs <> [] ->
        Exists (fun line => leadingWidth line = width)
               (filter nonBlank (JS.split JS.LF sql))).
Proof.
  unfold format.
  set (pieces := filter nonBlank (JS.split JS.LF sql)).
  destruct pieces as [|piece pieces'] eqn:Hpieces.
  - exists 0, []. repeat split; try constructor. intros H; now contradiction H.
  - rewrite <- Hpieces.
    destruct (Math_min_least (map leadingWidth pieces)) as [width [-> [Hall Hin]]];
      [rewrite Hpieces; discriminate|].
    rewrite Forall_map in Hall. apply in_map_iff in Hin as [line [Hline Hin]].
    exists width, (map (JS.slice (JS.Finite width)) pieces).
    repeat split.
    + clear - Hall. induction Hall as [|p ps Hp _ IH]; cbn [map]; constructor;
        [|exact IH].
      destruct (drop_indent _ p Hp) as [indent H]. now exists indent.
    + exact Hall.
    + intros _. apply Exists_exists. now exists line.
Qed.

Lemma format_only_removes_space (sql : string) :
  OnlySpaceRemoved sql (format sql).
Proof.
  rewrite <- (join_split sql) at 1. unfold format.
  apply osr_join_filter. intros p Hp Hnonblank.
  set (pieces := filter nonBlank (JS.split JS.LF sql)).
  assert (Hin : In p pieces) by (apply filter_In; auto).
  destruct (Math_min_least (map leadingWidth pieces)) as [width [-> [Hall _]]].
  - destruct pieces; [contradiction | discriminate].
  - rewrite Forall_map, Forall_forall in Hall.
    destruct (drop_indent _ p (Hall p Hin)) as [indent [Hp' [_ Hblank]]].
    cbn [JS.slice]. rewrite Hp' at 1.
    apply osr_blank_app; [exact Hblank | apply osr_refl].
Qed.

(** ** Removing white space keeps the pieces *)

Lemma osr_empty_inv (t : string) : OnlySpaceRemoved EmptyString t -> t = EmptyString.
Proof. now inversion 1. Qed.

Lemma osr_app_inv (a : string) : forall b t,
  OnlySpaceRemoved (a ++ b) t ->
  exists a' b',
    t = (a' ++ b')%string /\ OnlySpaceRemoved a a' /\ OnlySpaceRemoved b b'.
Proof.
  induction a as [|c a IH]; intros b t H.
  - exists EmptyString, t. repeat split; [constructor | exact H].
  - cbn in H. inversion H as [|c' s t' Hrest|c' s t' Hspace Hrest]; subst.
    + destruct (IH _ _ Hrest) as [a' [b' [-> [Ha Hb]]]].
      exists (String c a'), b'. repeat split; [now constructor | exact Hb].
    + destruct (IH _ _ Hrest) as [a' [b' [-> [Ha Hb]]]].
      exists a', b'. repeat split; [now constructor | exact Hb].
Qed.

(** White space is never taken out of a text that holds none. *)
Lemma osr_solid_prefix (a : string) :
  (forall c, In c (list_ascii_of_string a) -> JS.isWhiteSpace c = false) ->
  forall b t,
    OnlySpaceRemoved (a ++ b) t ->
    exists b', t = (a ++ b')%string /\ OnlySpaceRemoved b b'.
Proof.
  induction a as [|c a IH]; intros Hsolid b t H.
  - now exists t.
  - cbn in H. inversion H as [|c' s t' Hrest|c' s t' Hspace Hrest]; subst.
    + destruct (IH (fun x Hx => Hsolid x (or_intror Hx)) _ _ Hrest) as [b' [-> Hb]].
      now exists b'.
    + rewrite (Hsolid c (or_introl eq_refl)) in Hspace. discriminate Hspace.
Qed.

Lemma digits_solid (d : uint) :
  forall c, In c (list_ascii_of_string (NilEmpty.string_of_uint d)) ->
            JS.isWhiteSpace c = false.
Proof.
  induction d; cbn; intros c H; try contradiction;
    (destruct H as [<-|H]; [reflexivity | now apply IHd]).
Qed.

Lemma placeholderText_solid (index : nat) :
  forall c, In c (list_ascii_of_string (placeholderText index)) ->
            JS.isWhiteSpace c = false.
Proof.
  intros c [<-|H]; [reflexivity|]. exact (digits_solid _ c H).
Qed.



Lemma osr_render (segs : list Segment) : forall index t,
  OnlySpaceRemoved (render index segs) t ->
  exists segs', t = render index segs' /\ Forall2 formattedPiece segs segs'.
Proof.
  induction segs as [|[s|value] segs IH]; intros index t H; cbn [render] in H.
  - apply osr_empty_inv in H as ->. exists []. split; [reflexivity | constructor].
  - apply osr_app_inv in H as [s' [t' [-> [Hs Hrest]]]].
    destruct (IH _ _ Hrest) as [segs' [-> Hpieces]].
    exists (Raw s' :: segs'). split; [reflexivity | now constructor].
  - apply (osr_solid_prefix (placeholderText index) (placeholderText_solid index))
      in H as [t' [-> Hrest]].
    destruct (IH _ _ Hrest) as [segs' [-> Hpieces]].
    exists (Hole value :: segs'). split; [reflexivity | now constructor].
Qed.


(** ** What the formatter leaves alone *)

(** C7, as the code has it.  The composer applies the formatter once, to the
    text the processor returns, and passes the values on as they are.  The
    formatter splits the text on line breaks, drops the blank lines, and
    takes off every line it keeps the least leading white space width among
    them.  Nothing but white space is removed: however the text reads as
    pieces and holes numbered from 1, the formatted text reads as the same
    holes with the same numbers, between texts that lost white space at
    most. *)
Theorem format_dedents_kept_lines :
  forall (host : Value -> string) (fragments : list string) (args : list Value)
         (processed : SqlQueryObject),
    process host fragments args 1 = Ok processed ->
    sql host (TemplateStrings fragments) args
    = Ok {| text := format (text processed); values := values processed |}
    /\ OnlySpaceRemoved (text processed) (format (text processed))
    /\ (forall segs,
          text processed = render 1 segs ->
          exists segs',
            format (text processed) = render 1 segs'
            /\ Forall2 formattedPiece segs segs')
    /\ exists (width : nat) (outs : list string),
        format (text processed) = JS.join (JS.str JS.LF) outs
        /\ Forall2 (fun line out =>
                      exists indent,
                        line = (indent ++ out)%string
                        /\ String.length indent = width
                        /\ JS.matchesBlank indent = true)
                   (filter nonBlank (JS.split JS.LF (text processed))) outs
        /\ Forall (fun line => width <= leadingWidth line)
                  (filter nonBlank (JS.split JS.LF (text processed)))
        /\ (outs <> [] ->
            Exists (fun line => leadingWidth line = width)
                   (filter nonBlank (JS.split JS.LF (text processed)))).
Proof.
  intros host fragments args processed Hprocess. split; [|split; [|split]].
  - unfold sql. rewrite Hprocess. reflexivity.
  - apply format_only_removes_space.
  - intros segs Hsegs. apply osr_render. rewrite <- Hsegs.
    apply format_only_removes_space.
  - apply format_lines.
Qed.

Lemma format_dedents_kept_lines_witness :
  sql objectToString
    (TemplateStrings [String JS.LF "  SELECT * FROM t WHERE id = "; String JS.LF " "])
    [VNumber 5%float]
  = Ok {| text := format (String JS.LF "  SELECT * FROM t WHERE id = $1" ++ String JS.LF " ");
          values := [VNumber 5%float] |}.
Proof.
  apply (proj1 (format_dedents_kept_lines objectToString
                  [String JS.LF "  SELECT * FROM t WHERE id = "; String JS.LF " "]
                  [VNumber 5%float]
                  {| text := String JS.LF "  SELECT * FROM t WHERE id = $1"
                             ++ String JS.LF " ";
                     values := [VNumber 5%float] |}
                  eq_refl)).
Defined.

(** C7, as stated, fails: a blank line between two lines is not dedented
    and kept, it is dropped. *)
Lemma format_drops_blank_lines :
  format ("a" ++ String JS.LF (String JS.LF "b")) = ("a" ++ String JS.LF "b")%string
  /\ dedentEveryLine ("a" ++ String JS.LF (String JS.LF "b"))
     = ("a" ++ String JS.LF (String JS.LF "b"))%string
  /\ format ("a" ++ String JS.LF (String JS.LF "b"))
     <> dedentEveryLine ("a" ++ String JS.LF (String JS.LF "b")).
Proof. repeat split. discriminate. Qed.

(** ** Placeholders are numbered 1, 2, ... in the order of the values *)





(* ================================================================== *)
(** * Further properties of the code *)

(** ** Escaped identifiers read back *)

Lemma readQuoted_escaped (raw : string) :
  readQuoted (JS.replaceAll JS.dquote (String JS.dquote (JS.str JS.dquote)) raw
              ++ JS.str JS.dquote)
  = Some raw.
Proof.
  induction raw as [|c raw IH]; [reflexivity|].
  cbn [JS.replaceAll].
  destruct (Ascii.eqb_spec c JS.dquote) as [->|Hc].
  - cbn. cbn in IH. now rewrite IH.
  - cbn [append readQuoted].
    apply Ascii.eqb_neq in Hc. rewrite Hc, IH. reflexivity.
Qed.

(** X1.  An escaped identifier is one quoted name: read back, with doubled
    quotes as quotes and the first single quote as the end, it gives the name
    it was made from.  So two names have the same escaped text only when they
    are the same name. *)
Theorem escapeIdentifier_reads_back :
  forall raw other : string,
    readIdentifier (escapeIdentifier raw) = Some raw
    /\ (escapeIdentifier raw = escapeIdentifier other <-> raw = other).
Proof.
  assert (Hread : forall s, readIdentifier (escapeIdentifier s) = Some s)
    by (intros s; apply readQuoted_escaped).
  intros raw other. split; [apply Hread|]. split; [|now intros ->].
  intros H. pose proof (Hread raw) as Hraw. rewrite H, Hread in Hraw.
  now injection Hraw.
Qed.

Lemma process_items_cons2 (pp : Value -> State -> Result State)
  (separator : string) (item next : Value) (rest : list Value) (st : State) :
  process_items pp separator (item :: next :: rest) st
  = (st1 <- pp item st ;;
     process_items pp separator (next :: rest) (appendText separator st1)).
Proof. reflexivity. Qed.

(** X2.  [identifiers] gives a List that writes the escaped names joined by
    the separator, by a comma and a space when none is given, and binds no
    value. *)
Theorem identifiers_written :
  forall (host : Value -> string) (names : list string) (separator : option string)
         (st : State),
    processParam host (Api.identifiers names separator) st
    = Ok {| cur_text :=
              cur_text st
              ++ JS.join (match separator with Some s => s | None => ", " end)
                         (map escapeIdentifier names);
            cur_values := cur_values st;
            cur_index := cur_index st |}.
Proof.
  intros host names separator st.
  change (processParam host (Api.identifiers names separator) st)
    with (process_items (processParam host)
            (match separator with Some s => s | None => ", " end)
            (map Api.identifier names) st).
  generalize (match separator with Some s => s | None => ", " end).
  intros sep. revert st. unfold Api.identifier, box.
  induction names as [|name [|next rest] IH]; intros [t vs i].
  - cbn. now rewrite append_nil_r.
  - reflexivity.
  - cbn [map]. rewrite process_items_cons2. cbn [processParam bind].
    cbn [map] in IH. rewrite IH.
    unfold appendText. cbn [cur_text cur_values cur_index].
    rewrite join_cons. cbn [map]. now rewrite !append_assoc.
Qed.

(** ** What ends up in the values *)

Lemma bound_exhausted (fragments : list string) :
  bound (expand_exhausted fragments) = repeat VUndefined (length fragments - 1).
Proof.
  induction fragments as [|fragment [|next later] IH]; try reflexivity.
  change (expand_exhausted (fragment :: next :: later))
    with (Raw fragment :: Hole VUndefined :: expand_exhausted (next :: later)).
  cbn [bound]. rewrite IH. cbn. now rewrite Nat.sub_0_r.
Qed.

Lemma repeat_undefined_literal (n : nat) :
  Forall (fun value => isLiteral value = true) (repeat VUndefined n).
Proof. induction n; cbn; constructor; [reflexivity | assumption]. Qed.

Lemma expand_loop_exhausted (expandParam : Value -> Result (list Segment))
  (fragments : list string) :
  expand_loop expandParam [] fragments = Ok (expand_exhausted fragments).
Proof. destruct fragments as [|fragment [|next later]]; reflexivity. Qed.

Lemma expand_loop_literals (host : Value -> string) (params : list Value) :
  Forall (fun param => forall segs,
              expandParam host param = Ok segs ->
              Forall (fun value => isLiteral value = true) (bound segs))
         params ->
  forall fragments segs,
    expand_loop (expandParam host) params fragments = Ok segs ->
    Forall (fun value => isLiteral value = true) (bound segs).
Proof.
  induction 1 as [|param rest Hparam _ IH]; intros fragments segs.
  - rewrite expand_loop_exhausted. intros [= <-].
    rewrite bound_exhausted. apply repeat_undefined_literal.
  - destruct fragments as [|fragment [|next later]]; cbn [expand_loop].
    + intros [= <-]. constructor.
    + discriminate.
    + destruct (expandParam host param) as [first|e] eqn:Hfirst; cbn [bind];
        [|discriminate].
      destruct (expand_loop (expandParam host) rest (next :: later)) as [more|e]
        eqn:Hmore; cbn [bind]; [|discriminate].
      intros [= <-]. cbn [bound]. rewrite bound_app.
      apply Forall_app. split; [now apply Hparam | now apply (IH (next :: later))].
Qed.

Lemma expand_items_literals (host : Value -> string) (separator : string)
  (items : list Value) :
  Forall (fun param => forall segs,
              expandParam host param = Ok segs ->
              Forall (fun value => isLiteral value = true) (bound segs))
         items ->
  forall segs,
    expand_items (expandParam host) separator items = Ok segs ->
    Forall (fun value => isLiteral value = true) (bound segs).
Proof.
  induction 1 as [|item rest Hitem _ IH]; intros segs; cbn [expand_items].
  - intros [= <-]. constructor.
  - destruct (expandParam host item) as [first|e] eqn:Hfirst; cbn [bind];
      [|discriminate].
    destruct rest as [|next rest'].
    + intros [= <-]. now apply Hitem.
    + destruct (expand_items (expandParam host) separator (next :: rest'))
        as [more|e] eqn:Hmore; cbn [bind]; [|discriminate].
      intros [= <-]. rewrite bound_app. cbn [bound].
      apply Forall_app. split; [now apply Hitem | now apply IH].
Qed.

Lemma expandParam_literals (host : Value -> string) (param : Value) :
  forall segs,
    expandParam host param = Ok segs ->
    Forall (fun value => isLiteral value = true) (bound segs).
Proof.
  revert param.
  apply (Value_processing_ind
           (fun param => forall segs,
                expandParam host param = Ok segs ->
                Forall (fun value => isLiteral value = true) (bound segs))).
  - intros call H segs. cbn [expandParam].
    destruct (call SubsqlEntrypoint) as [result|message]; [|discriminate].
    destruct result as [s|x|b| | |t|bs|bs|props|elements|call'|payload];
      try apply H.
    destruct payload as [v|items separator|v|fragments params]; try apply H.
    now apply expand_loop_literals.
  - intros items separator H segs. cbn [expandParam].
    now apply expand_items_literals.
  - intros value.
    destruct value as [s|x|b| | |t|bs|bs|props|elements|call|payload];
      try exact I;
      try (intros segs; cbn; intros [= <-]; repeat constructor);
      try (intros segs; cbn; discriminate).
    destruct payload as [v|items separator|v|fragments params];
      try exact I; intros segs; cbn; try discriminate;
      intros [= <-]; constructor.
Qed.

(** X3.  Whatever the parameters, every value the composer returns is a
    Literal: no box, function, plain object or array is ever bound to a
    placeholder. *)
Theorem values_are_literals :
  forall (host : Value -> string) (fragments : FragmentsArg) (args : list Value)
         (query : SqlQueryObject),
    sql host fragments args = Ok query ->
    Forall (fun value => isLiteral value = true) (values query).
Proof.
  intros host [strings|v] args query; cbn [sql]; [|discriminate].
  rewrite process_expand.
  destruct (expand host strings args) as [segs|e] eqn:Hsegs; cbn [bind];
    [|discriminate].
  intros [= <-]. cbn [values].
  apply (expand_loop_literals host args) with (fragments := strings); [|exact Hsegs].
  apply Forall_forall. intros param _. apply expandParam_literals.
Qed.

Lemma values_are_literals_witness :
  Forall (fun value => isLiteral value = true)
         [VString "x"; VNumber 123%float; VNumber 456%float].
Proof.
  exact (values_are_literals objectToString
           (TemplateStrings ["a = "; " AND b = "; EmptyString])
           [VString "x"; anyOfTwo]
           {| text := "a = $1 AND b = ANY($2, $3)";
              values := [VString "x"; VNumber 123%float; VNumber 456%float] |}
           eq_refl).
Defined.

(** ** The buffer and the cursor *)

(** X4.  Processing a parameter only appends: the text and the values that
    were there stay as a prefix, and the index cursor moves on by the number
    of values added.  So a cursor that is [first] plus the number of values
    stays so. *)
Theorem processParam_appends :
  forall (host : Value -> string) (param : Value) (st st' : State),
    processParam host param st = Ok st' ->
    exists added bound_values,
      cur_text st' = (cur_text st ++ added)%string
      /\ cur_values st' = cur_values st ++ bound_values
      /\ cur_index st' = cur_index st + length bound_values
      /\ forall first,
          cur_index st = first + length (cur_values st) ->
          cur_index st' = first + length (cur_values st').
Proof.
  intros host param st st'. rewrite processParam_expand.
  destruct (expandParam host param) as [segs|e]; cbn [bind]; [|discriminate].
  intros [= <-].
  exists (render (cur_index st) segs), (bound segs). cbn.
  repeat split. intros first Hfirst. rewrite length_app. lia.
Qed.

Lemma processParam_appends_witness :
  exists added bound_values,
    "id IN ($3, $4)" = ("id IN (" ++ added)%string
    /\ [VNull; VNull; VNumber 1%float; VNumber 2%float]
       = [VNull; VNull] ++ bound_values
    /\ 5 = 3 + length bound_values.
Proof.
  destruct (processParam_appends objectToString
              (VFunction (fun sql =>
                 Returned (invoke sql [EmptyString; ", "; ")"]
                             [VNumber 1%float; VNumber 2%float])))
              {| cur_text := "id IN ("; cur_values := [VNull; VNull]; cur_index := 3 |}
              {| cur_text := "id IN ($3, $4)";
                 cur_values := [VNull; VNull; VNumber 1%float; VNumber 2%float];
                 cur_index := 5 |}
              eq_refl)
    as [added [bound_values [Htext [Hvalues [Hindex _]]]]].
  exists added, bound_values. repeat split; assumption.
Defined.

(** X5.  The outcome of processing does not depend on where the numbering
    starts: from any two start indices, [process] fails with the same error
    or succeeds with the same values. *)
Theorem process_outcome_independent_of_index :
  forall (host : Value -> string) (fragments : list string) (params : list Value)
         (index index' : nat),
    match process host fragments params index,
          process host fragments params index' with
    | Ok processed, Ok processed' => values processed = values processed'
    | Err e, Err e' => e = e'
    | _, _ => False
    end.
Proof.
  intros host fragments params index index'. rewrite !process_expand.
  destruct (expand host fragments params); reflexivity.
Qed.

(** ** Literal parameters, and parameters that are missing *)

Lemma expandParam_literal (host : Value -> string) (param : Value) :
  isLiteral param = true -> expandParam host param = Ok [Hole param].
Proof. destruct param; cbn; intros H; try discriminate H; reflexivity. Qed.

Lemma placeholdersBetween_cons2 (index : nat) (fragment next : string)
  (later : list string) :
  placeholdersBetween index (fragment :: next :: later)
  = (fragment ++ placeholderText index
       ++ placeholdersBetween (S index) (next :: later))%string.
Proof. reflexivity. Qed.

Lemma render_exhausted (fragments : list string) : forall index,
  render index (expand_exhausted fragments) = placeholdersBetween index fragments.
Proof.
  induction fragments as [|fragment [|next later] IH]; intros index.
  - reflexivity.
  - cbn. apply append_nil_r.
  - change (expand_exhausted (fragment :: next :: later))
      with (Raw fragment :: Hole VUndefined :: expand_exhausted (next :: later)).
    rewrite placeholdersBetween_cons2. cbn [render]. rewrite IH. reflexivity.
Qed.

Lemma expand_loop_literal_params (host : Value -> string) (params : list Value) :
  Forall (fun param => isLiteral param = true) params ->
  forall fragments,
    length params < length fragments ->
    exists segs,
      expand_loop (expandParam host) params fragments = Ok segs
      /\ (forall index, render index segs = placeholdersBetween index fragments)
      /\ bound segs
         = params ++ repeat VUndefined (length fragments - 1 - length params).
Proof.
  induction 1 as [|param rest Hparam _ IH]; intros fragments Hlength.
  - exists (expand_exhausted fragments). split; [apply expand_loop_exhausted|].
    split; [intros index; apply render_exhausted|].
    rewrite bound_exhausted. cbn. now rewrite Nat.sub_0_r.
  - destruct fragments as [|fragment [|next later]]; cbn in Hlength; try lia.
    destruct (IH (next :: later) ltac:(cbn; lia)) as [more [Hmore [Hrender Hbound]]].
    exists (Raw fragment :: Hole param :: more).
    cbn [expand_loop]. rewrite (expandParam_literal host param Hparam), Hmore.
    split; [reflexivity|]. split.
    + intros index. rewrite placeholdersBetween_cons2. cbn [render].
      rewrite Hrender. reflexivity.
    + cbn [bound]. rewrite Hbound. cbn. now rewrite !Nat.sub_0_r.
Qed.

(** X6.  When every parameter is a Literal and there are fewer parameters
    than fragments, the processor succeeds: the text is the fragments with a
    placeholder between each two, numbered from the start index, and the
    values are the parameters, in order, followed by one [undefined] for each
    fragment gap that has no parameter.  With one fragment more than
    parameters, the values are the parameters as they were passed. *)
Theorem literal_parameters_bound_in_order :
  forall (host : Value -> string) (fragments : list string) (params : list Value)
         (index : nat),
    Forall (fun param => isLiteral param = true) params ->
    length params < length fragments ->
    process host fragments params index
    = Ok {| text := placeholdersBetween index fragments;
            values := params
                      ++ repeat VUndefined (length fragments - 1 - length params) |}
    /\ (length fragments = length params + 1 ->
        process host fragments params index
        = Ok {| text := placeholdersBetween index fragments; values := params |}).
Proof.
  intros host fragments params index Hliteral Hlength.
  assert (H : process host fragments params index
              = Ok {| text := placeholdersBetween index fragments;
                      values := params
                                ++ repeat VUndefined
                                     (length fragments - 1 - length params) |}).
  { rewrite process_expand. unfold expand.
    destruct (expand_loop_literal_params host params Hliteral fragments Hlength)
      as [segs [-> [Hrender Hbound]]].
    cbn [bind]. now rewrite Hrender, Hbound. }
  split; [exact H|].
  intros Hpaired. rewrite H.
  replace (length fragments - 1 - length params) with 0 by lia.
  cbn [repeat]. now rewrite app_nil_r.
Qed.

Lemma literal_parameters_bound_in_order_witness :
  process objectToString ["a = "; " AND b = "; " AND c = "; EmptyString]
    [VString "x"; VNull] 1
  = Ok {| text := "a = $1 AND b = $2 AND c = $3";
          values := [VString "x"; VNull; VUndefined] |}.
Proof.
  apply (proj1 (literal_parameters_bound_in_order objectToString
                  ["a = "; " AND b = "; " AND c = "; EmptyString]
                  [VString "x"; VNull] 1
                  ltac:(repeat constructor) ltac:(cbn; lia))).
Defined.

(** X7.  With no fragment at all the loop body never runs: whatever
    parameters are passed, nothing is checked, the processor returns the
    empty text and no value, and so does the composer. *)
Theorem no_fragment_no_check :
  forall (host : Value -> string) (params : list Value) (index : nat),
    process host [] params index = Ok {| text := EmptyString; values := [] |}
    /\ sql host (TemplateStrings []) params
       = Ok {| text := EmptyString; values := [] |}.
Proof.
  intros host params index.
  assert (H : forall i, process host [] params i
                        = Ok {| text := EmptyString; values := [] |})
    by (intros i; destruct params; reflexivity).
  split; [apply H|]. unfold sql. rewrite H. reflexivity.
Qed.

(** ** Lists in Lists *)

Lemma expand_items_app (host : Value -> string) (separator : string)
  (xs ys : list Value) :
  xs <> [] ->
  expand_items (expandParam host) separator (xs ++ ys)
  = (segs <- expand_items (expandParam host) separator xs ;;
     match ys with
     | [] => Ok segs
     | _ :: _ =>
         more <- expand_items (expandParam host) separator ys ;;
         Ok (segs ++ Raw separator :: more)
     end).
Proof.
  induction xs as [|x [|x' xs'] IH]; intros Hne; [contradiction| |].
  - change ([x] ++ ys) with (x :: ys). cbn [expand_items].
    destruct (expandParam host x) as [segs|e]; cbn [bind]; [|reflexivity].
    destruct ys; reflexivity.
  - change ((x :: x' :: xs') ++ ys) with (x :: (x' :: xs') ++ ys).
    change (expand_items (expandParam host) separator (x :: (x' :: xs') ++ ys))
      with (segs <- expandParam host x ;;
            more <- expand_items (expandParam host) separator ((x' :: xs') ++ ys) ;;
            Ok (segs ++ Raw separator :: more)).
    change (expand_items (expandParam host) separator (x :: x' :: xs'))
      with (segs <- expandParam host x ;;
            more <- expand_items (expandParam host) separator (x' :: xs') ;;
            Ok (segs ++ Raw separator :: more)).
    rewrite IH by discriminate.
    destruct (expandParam host x) as [segs|e]; cbn [bind]; [|reflexivity].
    destruct (expand_items (expandParam host) separator (x' :: xs')) as [more|e];
      cbn [bind]; [|reflexivity].
    destruct ys as [|y ys']; [reflexivity|].
    destruct (expand_items (expandParam host) separator (y :: ys')) as [last|e];
      cbn [bind]; [|reflexivity].
    now rewrite <- app_assoc.
Qed.

(** X8.  A List that is not empty, put first in a List with the same
    separator, is processed as if its items stood in the outer List
    themselves: same text, same values, same failure. *)
Theorem nested_list_flattens :
  forall (host : Value -> string) (separator : string) (xs ys : list Value)
         (st : State),
    xs <> [] ->
    processParam host
      (Api.list (Api.list xs (Some separator) :: ys) (Some separator)) st
    = processParam host (Api.list (xs ++ ys) (Some separator)) st.
Proof.
  intros host separator xs ys st Hne.
  rewrite !processParam_expand. f_equal.
  unfold Api.list, box. cbn [expandParam].
  rewrite (expand_items_app host separator xs ys Hne).
  cbn [expand_items]. cbn [expandParam].
  destruct (expand_items (expandParam host) separator xs) as [segs|e];
    cbn [bind]; [|reflexivity].
  destruct ys; reflexivity.
Qed.

Lemma nested_list_flattens_witness :
  processParam objectToString
    (Api.list [Api.list [VNumber 1%float; VNumber 2%float] (Some ", ");
               VNumber 3%float] (Some ", "))
    {| cur_text := EmptyString; cur_values := []; cur_index := 1 |}
  = processParam objectToString
      (Api.list ([VNumber 1%float; VNumber 2%float] ++ [VNumber 3%float]) (Some ", "))
      {| cur_text := EmptyString; cur_values := []; cur_index := 1 |}.
Proof.
  apply (nested_list_flattens objectToString ", "
           [VNumber 1%float; VNumber 2%float] [VNumber 3%float]).
  discriminate.
Defined.

(** ** Formatting twice, and formatting to nothing *)

Lemma matchesBlank_app (a b : string) :
  JS.matchesBlank (a ++ b) = JS.matchesBlank a && JS.matchesBlank b.
Proof.
  induction a as [|c a IH]; [reflexivity|].
  cbn. rewrite IH. now rewrite andb_assoc.
Qed.

Lemma oneLine_cons (c : ascii) (p : string) :
  c <> JS.LF -> oneLine p -> oneLine (String c p).
Proof. intros Hc Hp x [<-|Hx]; [exact Hc | now apply Hp]. Qed.

Lemma oneLine_tail (c : ascii) (p : string) : oneLine (String c p) -> oneLine p.
Proof. intros H x Hx. apply H. now right. Qed.

Lemma split_oneLine (s : string) : Forall oneLine (JS.split JS.LF s).
Proof.
  induction s as [|a rest IH].
  - constructor; [intros c []|constructor].
  - cbn [JS.split]. destruct (Ascii.eqb_spec a JS.LF) as [->|Ha].
    + constructor; [intros c []|exact IH].
    + destruct (JS.split JS.LF rest) as [|piece pieces].
      * constructor; [|constructor]. apply oneLine_cons; [exact Ha|intros c []].
      * inversion IH as [|? ? Hpiece Hpieces]; subst.
        constructor; [now apply oneLine_cons | exact Hpieces].
Qed.

Lemma split_oneLine_prefix (a : string) : forall s,
  oneLine a ->
  JS.split JS.LF (a ++ s)
  = match JS.split JS.LF s with
    | [] => [a]
    | piece :: pieces => (a ++ piece)%string :: pieces
    end.
Proof.
  induction a as [|c a IH]; intros s Ha.
  - cbn [append].
    destruct (JS.split JS.LF s) eqn:Hs; [now apply split_nonempty in Hs|].
    reflexivity.
  - cbn [append JS.split].
    assert (Hc : Ascii.eqb c JS.LF = false)
      by (apply Ascii.eqb_neq, Ha; now left).
    rewrite Hc, (IH s (oneLine_tail _ _ Ha)).
    destruct (JS.split JS.LF s) eqn:Hs; [now apply split_nonempty in Hs|].
    reflexivity.
Qed.

Lemma split_join_lines (lines : list string) :
  lines <> [] ->
  Forall oneLine lines ->
  JS.split JS.LF (JS.join (JS.str JS.LF) lines) = lines.
Proof.
  induction lines as [|line [|next rest] IH]; intros Hne Hlines; [contradiction| |].
  - cbn. inversion Hlines as [|? ? Hline _]; subst.
    rewrite <- (append_nil_r line) at 1. rewrite (split_oneLine_prefix _ _ Hline).
    cbn. now rewrite append_nil_r.
  - rewrite join_cons. inversion Hlines as [|? ? Hline Hrest]; subst.
    rewrite (split_oneLine_prefix _ _ Hline).
    change (JS.str JS.LF ++ JS.join (JS.str JS.LF) (next :: rest))%string
      with (String JS.LF (JS.join (JS.str JS.LF) (next :: rest))).
    cbn [JS.split]. rewrite Ascii.eqb_refl, (IH ltac:(discriminate) Hrest).
    now rewrite append_nil_r.
Qed.

Lemma drop_oneLine (n : nat) : forall p, oneLine p -> oneLine (JS.drop n p).
Proof.
  induction n as [|n IH]; intros [|c p] Hp; try exact Hp.
  cbn. apply IH. exact (oneLine_tail _ _ Hp).
Qed.

Lemma trimStart_idempotent (p : string) :
  JS.trimStart (JS.trimStart p) = JS.trimStart p.
Proof.
  induction p as [|c p IH]; [reflexivity|].
  cbn [JS.trimStart]. destruct (JS.isWhiteSpace c) eqn:Hc; [exact IH|].
  cbn [JS.trimStart]. now rewrite Hc.
Qed.

Lemma leadingWidth_trimStart (p : string) : leadingWidth (JS.trimStart p) = 0.
Proof. unfold leadingWidth. rewrite trimStart_idempotent. lia. Qed.

Lemma Math_min_zero (lengths : list nat) :
  In 0 lengths -> JS.Math_min lengths = JS.Finite 0.
Proof.
  intros Hin.
  destruct (Math_min_least lengths) as [width [-> [Hall _]]].
  - intros ->. contradiction.
  - rewrite Forall_forall in Hall. specialize (Hall 0 Hin).
    f_equal. lia.
Qed.

Lemma filter_all {A : Type} (keep : A -> bool) (l : list A) :
  Forall (fun x => keep x = true) l -> filter keep l = l.
Proof.
  induction 1 as [|x l Hx _ IH]; [reflexivity|]. cbn. now rewrite Hx, IH.
Qed.

Lemma filter_none {A : Type} (keep : A -> bool) (l : list A) :
  Forall (fun x => keep x = false) l -> filter keep l = [].
Proof.
  induction 1 as [|x l Hx _ IH]; [reflexivity|]. cbn. now rewrite Hx.
Qed.

(** A text whose lines are all kept, one of them with no leading white
    space, is left as it is. *)
Lemma format_fixed (lines : list string) :
  lines <> [] ->
  Forall oneLine lines ->
  Forall (fun line => nonBlank line = true) lines ->
  Exists (fun line => leadingWidth line = 0) lines ->
  format (JS.join (JS.str JS.LF) lines) = JS.join (JS.str JS.LF) lines.
Proof.
  intros Hne Hlines Hkept Hflush. unfold format.
  rewrite (split_join_lines _ Hne Hlines), (filter_all _ _ Hkept).
  rewrite Math_min_zero.
  - f_equal. clear. induction lines as [|line rest IH]; [reflexivity|].
    cbn [map]. rewrite IH. now destruct line.
  - apply Exists_exists in Hflush as [line [Hin Hzero]].
    apply in_map_iff. now exists line.
Qed.

Lemma format_output_lines (sql : string) :
  format sql = EmptyString
  \/ exists outs,
      format sql = JS.join (JS.str JS.LF) outs
      /\ outs <> []
      /\ Forall oneLine outs
      /\ Forall (fun line => nonBlank line = true) outs
      /\ Exists (fun line => leadingWidth line = 0) outs.
Proof.
  unfold format.
  set (pieces := filter nonBlank (JS.split JS.LF sql)).
  assert (Hkept : Forall (fun p => nonBlank p = true /\ oneLine p) pieces).
  { apply Forall_forall. intros p Hp. apply filter_In in Hp as [Hin Hp].
    split; [exact Hp|].
    pose proof (split_oneLine sql) as H. rewrite Forall_forall in H. now apply H. }
  destruct pieces as [|piece pieces'] eqn:Hpieces; [now left|].
  right. clear Hpieces. set (kept := piece :: pieces') in *.
  assert (Hne : kept <> []) by discriminate. clearbody kept.
  destruct (Math_min_least (map leadingWidth kept)) as [width [-> [Hall Hin]]].
  - intros H. apply map_eq_nil in H. contradiction.
  - exists (map (JS.slice (JS.Finite width)) kept).
    rewrite Forall_map in Hall. apply in_map_iff in Hin as [line [Hline Hin]].
    split; [reflexivity|]. split; [|split; [|split]].
    + intros H. apply map_eq_nil in H. contradiction.
    + apply Forall_map. eapply Forall_impl; [|exact Hkept].
      intros p [_ Hp]. now apply drop_oneLine.
    + apply Forall_map.
      rewrite Forall_forall in Hall, Hkept. apply Forall_forall. intros p Hp.
      destruct (drop_indent _ p (Hall p Hp)) as [indent [Heq [_ Hblank]]].
      destruct (Hkept p Hp) as [Hnonblank _].
      unfold nonBlank in *. rewrite Heq, matchesBlank_app, Hblank in Hnonblank.
      exact Hnonblank.
    + apply Exists_exists. exists (JS.slice (JS.Finite width) line). split.
      * now apply in_map.
      * cbn [JS.slice]. rewrite <- Hline, drop_leadingWidth.
        apply leadingWidth_trimStart.
Qed.

(** X9.  Formatting again changes nothing.  A formatted text is empty, or
    every line of it holds a character that is not white space and one line
    starts with such a character. *)
Theorem format_idempotent :
  forall sql : string,
    format (format sql) = format sql
    /\ (format sql = EmptyString
        \/ Forall (fun line => nonBlank line = true) (JS.split JS.LF (format sql))
           /\ Exists (fun line => leadingWidth line = 0)
                     (JS.split JS.LF (format sql))).
Proof.
  intros sql.
  destruct (format_output_lines sql)
    as [->|[outs [-> [Hne [Hlines [Hkept Hflush]]]]]].
  - split; [reflexivity | now left].
  - split; [now apply format_fixed|].
    right. rewrite (split_join_lines _ Hne Hlines). now split.
Qed.

Lemma osr_to_empty (s t : string) :
  OnlySpaceRemoved s t -> t = EmptyString -> JS.matchesBlank s = true.
Proof.
  induction 1 as [|c s t _ _|c s t Hc _ IH]; intros Ht;
    [reflexivity | discriminate Ht|].
  cbn. now rewrite Hc, IH.
Qed.

Lemma split_blank (s : string) :
  JS.matchesBlank s = true ->
  Forall (fun p => nonBlank p = false) (JS.split JS.LF s).
Proof.
  induction s as [|a rest IH]; intros H.
  - repeat constructor.
  - cbn in H. apply andb_prop in H as [Ha Hrest]. specialize (IH Hrest).
    cbn [JS.split]. destruct (Ascii.eqb a JS.LF).
    + constructor; [reflexivity | exact IH].
    + destruct (JS.split JS.LF rest) as [|piece pieces].
      * constructor; [|constructor]. unfold nonBlank. cbn. now rewrite Ha.
      * inversion IH as [|? ? Hpiece Hpieces]; subst.
        constructor; [|exact Hpieces].
        unfold nonBlank in *. cbn. rewrite Ha. exact Hpiece.
Qed.

(** X10.  The formatted text is empty exactly when the text holds nothing
    but white space, line breaks included. *)
Theorem format_empty_iff_blank :
  forall sql : string,
    format sql = EmptyString <-> JS.matchesBlank sql = true.
Proof.
  intros sql. split.
  - intros H. exact (osr_to_empty _ _ (format_only_removes_space sql) H).
  - intros H. unfold format. now rewrite (filter_none _ _ (split_blank sql H)).
Qed.

(** ** A template is its text written in place *)








(** ** The first failure *)

Lemma expand_loop_first_failure (host : Value -> string) (done : list Value) :
  forall fragments failing rest e,
    (forall param, In param done -> exists segs, expandParam host param = Ok segs) ->
    expandParam host failing = Err e ->
    length done + 1 < length fragments ->
    expand_loop (expandParam host) (done ++ failing :: rest) fragments = Err e.
Proof.
  induction done as [|param done IH]; intros fragments failing rest e Hdone Hfail Hlen;
    (destruct fragments as [|fragment [|next later]]; cbn in Hlen; try lia).
  - change ([] ++ failing :: rest) with (failing :: rest).
    cbn [expand_loop]. now rewrite Hfail.
  - change ((param :: done) ++ failing :: rest)
      with (param :: (done ++ failing :: rest)).
    cbn [expand_loop].
    destruct (Hdone param (or_introl eq_refl)) as [segs ->]. cbn [bind].
    rewrite (IH (next :: later) failing rest e); [reflexivity| |exact Hfail|cbn; lia].
    intros p Hp. apply Hdone. now right.
Qed.

(** X12.  Parameters are processed in order and the first one that fails
    ends the call: when the parameters before it are processed without
    error and it has a fragment after it, the processor fails with its
    error, whatever the parameters after it are. *)
Theorem first_failure_wins :
  forall (host : Value -> string) (fragments : list string)
         (done : list Value) (failing : Value) (rest : list Value)
         (st0 : State) (e : Error) (index : nat),
    (forall param, In param done ->
                   forall st, exists st', processParam host param st = Ok st') ->
    processParam host failing st0 = Err e ->
    length done + 1 < length fragments ->
    process host fragments (done ++ failing :: rest) index = Err e.
Proof.
  intros host fragments done failing rest st0 e index Hdone Hfail Hlen.
  rewrite process_expand. unfold expand.
  rewrite (expand_loop_first_failure host done fragments failing rest e);
    [reflexivity| | |exact Hlen].
  - intros param Hin. apply processParam_succeeds_expands. now apply Hdone.
  - rewrite processParam_expand in Hfail.
    destruct (expandParam host failing) as [segs|e']; cbn [bind] in Hfail;
      [discriminate Hfail | now injection Hfail as ->].
Qed.

Lemma first_failure_wins_witness :
  process objectToString ["a = "; " AND b = "; " AND c = "; EmptyString]
    ([VNumber 1%float]
     ++ VFunction (fun _ => Thrown "no such filter") :: [VObject []]) 1
  = Err (CallableThrew "no such filter").
Proof.
  apply (first_failure_wins objectToString
           ["a = "; " AND b = "; " AND c = "; EmptyString]
           [VNumber 1%float] (VFunction (fun _ => Thrown "no such filter"))
           [VObject []]
           {| cur_text := EmptyString; cur_values := []; cur_index := 1 |}).
  - intros param [<-|[]] st. eexists. reflexivity.
  - reflexivity.
  - cbn. lia.
Defined.

(** ** The earlier revision: string literals *)

Lemma escapeChar_fold (chars : list ascii) : forall st,
  fold_left Legacy.escapeChar chars st
  = {| Legacy.escaped :=
         Legacy.escaped st
         ++ string_of_list_ascii (flat_map Legacy.doubledInLiteral chars);
       Legacy.hasBackslash :=
         Legacy.hasBackslash st || existsb (Ascii.eqb Legacy.backslash) chars |}.
Proof.
  induction chars as [|c chars IH]; intros [escaped flag].
  - cbn. now rewrite append_nil_r, orb_false_r.
  - cbn [fold_left flat_map existsb]. rewrite IH.
    rewrite string_of_list_ascii_app.
    unfold Legacy.escapeChar, Legacy.doubledInLiteral.
    destruct (Ascii.eqb_spec c Legacy.quote) as [->|Hquote].
    + cbn. now rewrite !append_assoc.
    + rewrite (Ascii.eqb_sym Legacy.backslash c).
      destruct (Ascii.eqb_spec c Legacy.backslash) as [->|Hback]; cbn.
      * now rewrite !append_assoc, orb_true_r.
      * now rewrite !append_assoc.
Qed.

(** X13.  [escapeLiteral] of the earlier revision puts the string between
    single quotes with every single quote and every backslash doubled, and
    writes a space and an E before the opening quote exactly when the string
    holds a backslash.  The two literals of the test suite come out as the
    tests expect. *)
Theorem escapeLiteral_closed_form :
  forall s : string,
    Legacy.escapeLiteral s
    = ((if Legacy.holdsBackslash s then " E" else EmptyString)
       ++ String Legacy.quote
            (string_of_list_ascii
               (flat_map Legacy.doubledInLiteral (list_ascii_of_string s))
             ++ String Legacy.quote EmptyString))%string
    /\ Legacy.escapeLiteral "abcde" = "'abcde'"
    /\ Legacy.escapeLiteral "abc' AND hidden = true" = "'abc'' AND hidden = true'".
Proof.
  intros s. split; [|split; reflexivity].
  unfold Legacy.escapeLiteral, Legacy.holdsBackslash.
  rewrite escapeChar_fold.
  cbn [Legacy.escaped Legacy.hasBackslash orb append].
  destruct (existsb (Ascii.eqb Legacy.backslash) (list_ascii_of_string s));
    reflexivity.
Qed.
